(** * Custom emoji resolution ([src/app/organisms/emoji-board/custom-emoji.js])

    A shallow embedding of the image-pack resolver of the client: the
    parsing of MSC 2545 image-pack events ([ImagePack.parsePack]), the three
    sources of packs ([getUserImagePack], [getPacksInRoom],
    [getFromImagePackRooms]), their merge ([getRelevantPacks]) and the two
    lookup tables built from it ([getShortcodeToEmoji],
    [getEmojiForCompletion]).

    The JavaScript is untyped and reads user-authored JSON, so event
    contents are modelled as JSON values and every operation that the
    language may abort with a [TypeError] lives in an error monad. *)

From Stdlib Require Import List String Ascii ZArith Bool Lia.
From Stdlib Require Import DecimalString.
Import ListNotations.
Open Scope string_scope.
Open Scope list_scope.

Set Implicit Arguments.
Set Warnings "-register-all".

(** ** JavaScript values *)

(** Event contents are parsed JSON.  An object is the list of its own
    enumerable properties in enumeration order (the order of
    [Object.entries]); Matrix event JSON carries integers only. *)
Inductive JsVal : Type :=
| JUndefined
| JNull
| JBool (b : bool)
| JNum (n : Z)
| JStr (s : string)
| JArr (elems : list JsVal)
| JObj (props : list (string * JsVal)).

(** ** Abrupt completion *)

Inductive JsError : Type := TypeError.

Inductive Completion (A : Type) : Type :=
| Ok (a : A)
| Throw (e : JsError).

Arguments Ok {A} a.
Arguments Throw {A} e.

Definition bind {A B} (c : Completion A) (k : A -> Completion B) : Completion B :=
  match c with
  | Ok a => k a
  | Throw e => Throw e
  end.

Notation "x <- c ;; k" := (bind c (fun x => k))
  (at level 61, c at next level, right associativity).

Definition returns {A} (c : Completion A) : Prop := exists a, c = Ok a.

Definition throws {A} (c : Completion A) : Prop := exists e, c = Throw e.

(** [Array.prototype.flatMap] with a callback that may throw: elements are
    visited left to right and the first exception aborts the traversal. *)
Fixpoint flatMapM {A B} (f : A -> Completion (list B)) (l : list A)
  : Completion (list B) :=
  match l with
  | [] => Ok []
  | x :: l' => ys <- f x ;; zs <- flatMapM f l' ;; Ok (ys ++ zs)
  end.

(** [Array.prototype.map] with a callback that may throw. *)
Fixpoint mapM {A B} (f : A -> Completion B) (l : list A) : Completion (list B) :=
  match l with
  | [] => Ok []
  | x :: l' => y <- f x ;; ys <- mapM f l' ;; Ok (y :: ys)
  end.

(** [Array.prototype.filter] with a predicate that may throw. *)
Fixpoint filterM {A} (p : A -> Completion bool) (l : list A) : Completion (list A) :=
  match l with
  | [] => Ok []
  | x :: l' => b <- p x ;; ys <- filterM p l' ;; Ok (if b then x :: ys else ys)
  end.

(** ** Operators of the language used by the module *)

(** [v === undefined || v === null], the test behind [??] and [??=]. *)
Definition nullish (v : JsVal) : bool :=
  match v with
  | JUndefined | JNull => true
  | _ => false
  end.

(** [a ?? b] *)
Definition coalesce (a b : JsVal) : JsVal := if nullish a then b else a.

(** [typeof v === 'undefined'] *)
Definition is_undefined (v : JsVal) : bool :=
  match v with
  | JUndefined => true
  | _ => false
  end.

(** [ToBoolean], as applied by [if (v)]. *)
Definition truthy (v : JsVal) : bool :=
  match v with
  | JUndefined | JNull => false
  | JBool b => b
  | JNum n => negb (Z.eqb n 0)
  | JStr s => negb (String.eqb s "")
  | JArr _ | JObj _ => true
  end.

Fixpoint lookup (k : string) (props : list (string * JsVal)) : option JsVal :=
  match props with
  | [] => None
  | (k', v) :: rest => if String.eqb k k' then Some v else lookup k rest
  end.

(** Property read [v.k].  Reading a property of [undefined] or [null]
    throws.  The module reads only the names [images], [pack],
    [display_name], [avatar_url], [usage], [attribution], [url], [body],
    [info] and [rooms] from JSON values; none of them is an array index or a
    member of the String, Number, Boolean or Array prototypes, so on a
    primitive or an array the read gives [undefined]. *)
Definition get (v : JsVal) (k : string) : Completion JsVal :=
  match v with
  | JUndefined | JNull => Throw TypeError
  | JObj props =>
      match lookup k props with
      | Some x => Ok x
      | None => Ok JUndefined
      end
  | _ => Ok JUndefined
  end.

(** The decimal name of an array index. *)
Definition index_name (i : nat) : string :=
  NilEmpty.string_of_uint (Nat.to_uint i).

Fixpoint indexed {A} (i : nat) (l : list A) : list (string * A) :=
  match l with
  | [] => []
  | x :: l' => (index_name i, x) :: indexed (S i) l'
  end.

Fixpoint chars (s : string) : list JsVal :=
  match s with
  | EmptyString => []
  | String c s' => JStr (String c EmptyString) :: chars s'
  end.

(** [Object.entries(v)]: throws on [undefined] and [null]; a string or an
    array enumerates its indices; other primitives have no own property. *)
Definition Object_entries (v : JsVal) : Completion (list (string * JsVal)) :=
  match v with
  | JUndefined | JNull => Throw TypeError
  | JObj props => Ok props
  | JArr elems => Ok (indexed 0 elems)
  | JStr s => Ok (indexed 0 (chars s))
  | JBool _ | JNum _ => Ok []
  end.

(** [Object.keys(v)] *)
Definition Object_keys (v : JsVal) : Completion (list string) :=
  es <- Object_entries v ;; Ok (map fst es).

(** [Array.prototype.indexOf]: the index of the first element strictly
    equal to [x], or [-1]. *)
Fixpoint Array_indexOf {A} (eqb : A -> A -> bool) (l : list A) (x : A) : Z :=
  match l with
  | [] => (-1)%Z
  | y :: l' =>
      if eqb y x then 0%Z
      else let r := Array_indexOf eqb l' x in
           if Z.eqb r (-1) then (-1)%Z else (r + 1)%Z
  end.

(** [===] between JSON values when the right operand is a string. *)
Definition strict_eqb (a b : JsVal) : bool :=
  match a, b with
  | JStr s, JStr t => String.eqb s t
  | _, _ => false
  end.

(** [===] on values that are a string or [undefined]. *)
Definition opt_string_eqb (a b : option string) : bool :=
  match a, b with
  | Some s, Some t => String.eqb s t
  | None, None => true
  | _, _ => false
  end.

(** [String.prototype.indexOf] *)
Definition String_indexOf (haystack needle : string) : Z :=
  match String.index 0 needle haystack with
  | Some n => Z.of_nat n
  | None => (-1)%Z
  end.

(** The method call [v.indexOf(s)] with a string argument, on a JSON value:
    arrays and strings have the method, on anything else the call throws. *)
Definition indexOf (v : JsVal) (s : string) : Completion Z :=
  match v with
  | JArr elems => Ok (Array_indexOf strict_eqb elems (JStr s))
  | JStr h => Ok (String_indexOf h s)
  | _ => Throw TypeError
  end.

(** ** Objects of the Matrix SDK *)

(** The raw event behind a [MatrixEvent] ([.event]).  Account-data events
    have neither a state key nor an event id ([None] is [undefined]). *)
Record RawEvent : Type := mkRawEvent {
  content : JsVal;
  state_key : option string;
  event_id : option string;
}.

(** A room of the client: [room.name], [room.getMxcAvatarUrl()] and
    [room.currentState.getStateEvents(type)]. *)
Record Room : Type := mkRoom {
  roomId : string;
  name : string;
  getMxcAvatarUrl : JsVal;
  getStateEvents : string -> list RawEvent;
}.

(** The Matrix client: [mx.getAccountData(type)] (an event or [undefined])
    and [mx.getRoom(roomId)] (a room or [null]). *)
Record Client : Type := mkClient {
  getAccountData : string -> option RawEvent;
  getRoom : string -> option Room;
}.

(** ** Image packs *)

Record Image : Type := mkImage {
  shortcode : string;
  mxc : JsVal;
  body : JsVal;
  info : JsVal;
  usage_ : JsVal;
}.

Record ImagePack : Type := mkImagePack {
  displayName : JsVal;
  avatar : JsVal;
  usage : JsVal;
  attribution : JsVal;
  images : list Image;
  event : RawEvent;
}.

Definition default_usage : JsVal := JArr [JStr "emoticon"; JStr "sticker"].

(** The callback of [flatMap] in [parsePack]: one entry of the images
    mapping becomes one image, or nothing when it has no media reference. *)
Definition parseImage (usage : JsVal) (e : string * JsVal) : Completion (list Image) :=
  let data := snd e in
  let shortcode := fst e in
  mxc <- get data "url" ;;
  b <- get data "body" ;;
  let body := coalesce b (JStr shortcode) in
  info <- get data "info" ;;
  u <- get data "usage" ;;
  let usage_ := coalesce u usage in
  if truthy mxc then Ok [mkImage shortcode mxc body info usage_] else Ok [].

(** [ImagePack.parsePack(rawPack, room)]; [None] is [null]. *)
Definition parsePack (rawPack : RawEvent) (room : option Room)
  : Completion (option ImagePack) :=
  imgs <- get (content rawPack) "images" ;;
  if is_undefined imgs then Ok None
  else
    p <- get (content rawPack) "pack" ;;
    let pack := coalesce p (JObj []) in
    dn <- get pack "display_name" ;;
    let displayName :=
      coalesce dn (match room with Some r => JStr (name r) | None => JUndefined end) in
    av <- get pack "avatar_url" ;;
    let avatar :=
      coalesce av (match room with Some r => getMxcAvatarUrl r | None => JUndefined end) in
    us <- get pack "usage" ;;
    let usage := coalesce us default_usage in
    attribution <- get pack "attribution" ;;
    entries <- Object_entries imgs ;;
    images <- flatMapM (parseImage usage) entries ;;
    Ok (Some (mkImagePack displayName avatar usage attribution images rawPack)).

(** [pack.getEmojis()] *)
Definition getEmojis (pack : ImagePack) : Completion (list Image) :=
  filterM (fun i => n <- indexOf (usage_ i) "emoticon" ;; Ok (negb (Z.eqb n (-1))))
          (images pack).

(** [pack.getStickers()] *)
Definition getStickers (pack : ImagePack) : Completion (list Image) :=
  filterM (fun i => n <- indexOf (usage_ i) "sticker" ;; Ok (negb (Z.eqb n (-1))))
          (images pack).

(** ** The three sources of packs *)

(** [userImagePack.displayName ??= 'Your Emoji'] *)
Definition defaultDisplayName (p : ImagePack) : ImagePack :=
  mkImagePack (coalesce (displayName p) (JStr "Your Emoji"))
              (avatar p) (usage p) (attribution p) (images p) (event p).

(** [getUserImagePack(mx)] *)
Definition getUserImagePack (mx : Client) : Completion (option ImagePack) :=
  match getAccountData mx "im.ponies.user_emotes" with
  | None => Ok None
  | Some accountDataEmoji =>
      userImagePack <- parsePack accountDataEmoji None ;;
      Ok (option_map defaultDisplayName userImagePack)
  end.

(** [.filter((p) => p !== null)] *)
Fixpoint dropNull {A} (l : list (option A)) : list A :=
  match l with
  | [] => []
  | Some x :: l' => x :: dropNull l'
  | None :: l' => dropNull l'
  end.

(** [getPacksInRoom(room)] *)
Definition getPacksInRoom (room : Room) : Completion (list ImagePack) :=
  let packs := getStateEvents room "im.ponies.room_emotes" in
  parsed <- mapM (fun p => parsePack p (Some room)) packs ;;
  Ok (dropNull parsed).

(** [keys.indexOf(pack.event.state_key) !== -1] *)
Definition keyEnabled (keys : list string) (pack : ImagePack) : bool :=
  negb (Z.eqb (Array_indexOf opt_string_eqb (map Some keys) (state_key (event pack)))
              (-1)).

(** The callback of [flatMap] in [getFromImagePackRooms]. *)
Definition packsOfEmoteRoom (mx : Client) (e : string * JsVal)
  : Completion (list ImagePack) :=
  let roomId := fst e in
  let keyObjects := snd e in
  keys <- Object_keys keyObjects ;;
  match getRoom mx roomId with
  | Some room =>
      packs <- getPacksInRoom room ;;
      Ok (filter (keyEnabled keys) packs)
  | None => Ok []
  end.

(** [getFromImagePackRooms(mx)] *)
Definition getFromImagePackRooms (mx : Client) : Completion (list ImagePack) :=
  let accountDataEvent :=
    match getAccountData mx "im.ponies.emote_rooms" with
    | Some ev => ev
    | None => mkRawEvent (JObj []) None None
    end in
  let eventContent := content accountDataEvent in
  r <- get eventContent "rooms" ;;
  let emoteRooms := coalesce r (JObj []) in
  entries <- Object_entries emoteRooms ;;
  flatMapM (packsOfEmoteRoom mx) entries.

(** ** Merging the sources *)

(** [Array.prototype.filter] with the two-argument callback
    [(element, index)]. *)
Fixpoint filteri_from {A} (p : A -> nat -> bool) (i : nat) (l : list A) : list A :=
  match l with
  | [] => []
  | x :: l' =>
      if p x i then x :: filteri_from p (S i) l' else filteri_from p (S i) l'
  end.

Definition filteri {A} (p : A -> nat -> bool) (l : list A) : list A :=
  filteri_from p 0 l.

(** [[].concat(x ?? [], ...)]: [null] contributes nothing, a pack one
    element. *)
Definition optList {A} (o : option A) : list A :=
  match o with
  | Some x => [x]
  | None => []
  end.

Definition packId (pack : ImagePack) : option string := event_id (event pack).

(** The last two statements of [getRelevantPacks]: keep a pack when the
    first index of its event id is its own index. *)
Definition dedupPacks (packs : list ImagePack) : list ImagePack :=
  let events := map packId packs in
  filteri (fun pack indx =>
             Z.eqb (Array_indexOf opt_string_eqb events (packId pack)) (Z.of_nat indx))
          packs.

(** [getRelevantPacks(room)].  The source reaches the client through the
    back reference [room.client]; here the client is an explicit argument. *)
Definition getRelevantPacks (mx : Client) (room : Room) : Completion (list ImagePack) :=
  user <- getUserImagePack mx ;;
  inRoom <- getPacksInRoom room ;;
  external <- getFromImagePackRooms mx ;;
  let packs := optList user ++ inRoom ++ external in
  Ok (dedupPacks packs).

(** ** The lookup tables *)

(** A JavaScript [Map] with string keys remembers insertion order; [set] on
    a key already present replaces the value where the key stands. *)
Definition JsMap (V : Type) : Type := list (string * V).

Fixpoint Map_set {V} (k : string) (v : V) (m : JsMap V) : JsMap V :=
  match m with
  | [] => [(k, v)]
  | (k', v') :: m' =>
      if String.eqb k' k then (k, v) :: m' else (k', v') :: Map_set k v m'
  end.

Fixpoint Map_get {V} (m : JsMap V) (k : string) : option V :=
  match m with
  | [] => None
  | (k', v) :: m' => if String.eqb k' k then Some v else Map_get m' k
  end.

Definition Map_has {V} (m : JsMap V) (k : string) : bool :=
  match Map_get m k with
  | Some _ => true
  | None => false
  end.

Definition Map_values {V} (m : JsMap V) : list V := map snd m.

(** A standard emoji declares one shortcode or an array of them
    ([emoji.shortcodes.constructor.name === 'Array']). *)
Inductive Shortcodes : Type :=
| OneCode (s : string)
| Codes (l : list string).

(** An entry of the standard emoji table of [./emoji]; [std_shortcode] is
    its [shortcode] property. *)
Record StdEmoji : Type := mkStdEmoji {
  hexcode : string;
  unicode : string;
  std_shortcode : string;
  shortcodes : Shortcodes;
}.

(** What the tables hold: a standard emoji or an image of a pack. *)
Inductive Emoji : Type :=
| Standard (e : StdEmoji)
| Custom (i : Image).

Definition emoji_shortcode (e : Emoji) : string :=
  match e with
  | Standard s => std_shortcode s
  | Custom i => shortcode i
  end.

(** The [forEach] that seeds [allEmoji] with the standard emoji. *)
Definition setStandard (m : JsMap Emoji) (emoji : StdEmoji) : JsMap Emoji :=
  match shortcodes emoji with
  | Codes l => fold_left (fun m sc => Map_set sc (Standard emoji) m) l m
  | OneCode s => Map_set s (Standard emoji) m
  end.

(** [getRelevantPacks(room).reverse().flatMap((pack) => pack.getEmojis())] *)
Definition customEmoji (mx : Client) (room : Room) : Completion (list Image) :=
  packs <- getRelevantPacks mx room ;;
  flatMapM getEmojis (rev packs).

Section Tables.

(** The table [emojis] exported by [./emoji]. *)
Variable emojis : list StdEmoji.

(** [getShortcodeToEmoji(room)] *)
Definition getShortcodeToEmoji (mx : Client) (room : Room)
  : Completion (JsMap Emoji) :=
  let allEmoji := fold_left setStandard emojis [] in
  custom <- customEmoji mx room ;;
  Ok (fold_left (fun m emoji => Map_set (shortcode emoji) (Custom emoji) m)
                custom allEmoji).

(** [getEmojiForCompletion(room)] *)
Definition getEmojiForCompletion (mx : Client) (room : Room)
  : Completion (list Emoji) :=
  custom <- customEmoji mx room ;;
  let allEmoji :=
    fold_left (fun m emoji => Map_set (shortcode emoji) emoji m) custom [] in
  Ok (map Standard
          (filter (fun e => negb (Map_has allEmoji (std_shortcode e))) emojis)
      ++ map Custom (Map_values allEmoji)).

End Tables.

(** * The room profile form ([RoomProfile]) *)

(** The submit handler of the form is an [async] function: between two
    [await]s it runs to completion, so what it does to the outside is a
    sequence of actions, and what the outside answers is the outcome of each
    awaited call and the value of the mount flag after each [await]. *)
Module RoomProfile.

(** [cons.status] *)
Inductive StatusType : Type := PRE_FLIGHT | IN_FLIGHT | SUCCESS | ERROR.

(** The argument of [setStatus]. *)
Record Status : Type := mkStatus {
  msg : option string;
  type : StatusType;
}.

(** An awaited promise resolves, or rejects with an error whose [message]
    is a string or [undefined]. *)
Inductive Outcome : Type :=
| Resolved
| Rejected (message : option string).

Inductive Action : Type :=
| PreventDefault
| SetStatus (s : Status)
| SetRoomName (room newName : string)
| SetRoomTopic (room newTopic : string).

(** What a render of the component closes over. *)
Record Props : Type := mkProps {
  rid : string;
  roomName : string;
  roomTopic : option string;
  canChangeName : bool;
  canChangeTopic : bool;
}.

(** The values of the inputs [room-name] and [room-topic]. *)
Record Form : Type := mkForm {
  newName : string;
  newTopic : string;
}.

(** The answers of the outside: [mx.setRoomName], [mx.setRoomTopic], and
    [isMountStore.getItem()] as a function of the number of [await]s
    completed so far. *)
Record World : Type := mkWorld {
  setRoomName : string -> string -> Outcome;
  setRoomTopic : string -> string -> Outcome;
  mounted : nat -> bool;
}.

(** [err.message || 'Unable to save.'] *)
Definition errorText (message : option string) : string :=
  match message with
  | Some s => if String.eqb s "" then "Unable to save." else s
  | None => "Unable to save."
  end.

(** The [catch] block, entered after [t] awaits. *)
Definition catch (w : World) (t : nat) (message : option string) : list Action :=
  if mounted w t
  then [SetStatus (mkStatus (Some (errorText message)) ERROR)]
  else [].

(** The end of the [try] block, reached after [t] awaits. *)
Definition finish (w : World) (t : nat) : list Action :=
  if mounted w t
  then [SetStatus (mkStatus (Some "Saved successfully") SUCCESS)]
  else [].

(** [if (canChangeTopic) { ... }] and what follows it. *)
Definition saveTopic (p : Props) (f : Form) (w : World) (t : nat) : list Action :=
  if canChangeTopic p && negb (opt_string_eqb (Some (newTopic f)) (roomTopic p))
  then
    (if mounted w t
     then [SetStatus (mkStatus (Some "Saving room topic...") IN_FLIGHT)]
     else [])
    ++ SetRoomTopic (rid p) (newTopic f)
       :: match setRoomTopic w (rid p) (newTopic f) with
          | Resolved => finish w (S t)
          | Rejected message => catch w (S t) message
          end
  else finish w t.

Section Handler.

(** [String.prototype.trim] *)
Variable trim : string -> string.

(** [newName !== roomName && roomName.trim() !== ''], under
    [canChangeName]. *)
Definition renames (p : Props) (f : Form) : bool :=
  canChangeName p
  && (negb (String.eqb (newName f) (roomName p))
      && negb (String.eqb (trim (roomName p)) "")).

(** [handleOnSubmit(e)] *)
Definition handleOnSubmit (p : Props) (f : Form) (w : World) : list Action :=
  PreventDefault
  :: if renames p f
     then SetStatus (mkStatus (Some "Saving room name...") IN_FLIGHT)
          :: SetRoomName (rid p) (newName f)
          :: match setRoomName w (rid p) (newName f) with
             | Resolved => saveTopic p f w 1
             | Rejected message => catch w 1 message
             end
     else saveTopic p f w 0.

End Handler.

(** The calls to the client among the actions. *)
Definition isCall (a : Action) : bool :=
  match a with
  | SetRoomName _ _ | SetRoomTopic _ _ => true
  | _ => false
  end.

Definition calls (trace : list Action) : list Action := filter isCall trace.

(** The topic differs from the one shown: [newTopic !== roomTopic], under
    [canChangeTopic]. *)
Definition retopics (p : Props) (f : Form) : bool :=
  canChangeTopic p && negb (opt_string_eqb (Some (newTopic f)) (roomTopic p)).

(** What the client answers to a call. *)
Definition outcomeOf (w : World) (a : Action) : Outcome :=
  match a with
  | SetRoomName room n => setRoomName w room n
  | SetRoomTopic room t => setRoomTopic w room t
  | _ => Resolved
  end.

(** A status that reports the end of the submission. *)
Definition isVerdict (a : Action) : bool :=
  match a with
  | SetStatus s =>
      match type s with
      | SUCCESS | ERROR => true
      | _ => false
      end
  | _ => false
  end.

(** A form in a room the user may rename, and a client whose rename fails. *)
Definition sampleProps : Props := mkProps "!r:x" "Old name" None true true.

Definition sampleForm : Form := mkForm "New name" "".

Definition failing : World :=
  mkWorld (fun _ _ => Rejected (Some "")) (fun _ _ => Resolved) (fun _ => true).

Definition leaving : World :=
  mkWorld (fun _ _ => Resolved) (fun _ _ => Resolved) (fun t => Nat.eqb t 0).

End RoomProfile.

(** ** Vocabulary of the properties *)

(** An entry of the images mapping has a media reference when its [url] is
    truthy, the test [if (mxc)] of [parsePack]. *)
Definition hasMedia (data : JsVal) : bool :=
  match get data "url" with
  | Ok url => truthy url
  | Throw _ => false
  end.

(** The pack events that [parsePack] accepts without throwing: the content
    can be read, and the images value is either [undefined] or can be
    enumerated into entries none of which is [null] or [undefined]. *)
Definition tolerated (rawPack : RawEvent) : bool :=
  match get (content rawPack) "images" with
  | Throw _ => false
  | Ok imgs =>
      is_undefined imgs ||
      match Object_entries imgs with
      | Ok entries => forallb (fun e => negb (nullish (snd e))) entries
      | Throw _ => false
      end
  end.


(** Deduplication by source event id in the words of the specification:
    walking the list in priority order, a pack is kept when no earlier pack
    had its event id, and dropped otherwise. *)
Fixpoint dedupFirst (seen : list (option string)) (packs : list ImagePack)
  : list ImagePack :=
  match packs with
  | [] => []
  | p :: rest =>
      if existsb (fun s => opt_string_eqb s (packId p)) seen
      then dedupFirst seen rest
      else p :: dedupFirst (seen ++ [packId p]) rest
  end.

Definition dedupByEventId (packs : list ImagePack) : list ImagePack :=
  dedupFirst [] packs.

(** An image takes part as an emoji when the test of [getEmojis],
    [usage.indexOf('emoticon') !== -1], succeeds on it. *)
Definition emoticon (i : Image) : bool :=
  match indexOf (usage_ i) "emoticon" with
  | Ok n => negb (Z.eqb n (-1))
  | Throw _ => false
  end.

(** A standard emoji is shadowed when a custom emoji has its shortcode. *)
Definition shadowed (custom : list Image) (e : StdEmoji) : bool :=
  existsb (fun i => String.eqb (shortcode i) (std_shortcode e)) custom.

(** Writing a sequence of elements into a map under the key and the value
    computed from each, as the [forEach] loops of the two tables do. *)
Definition setAll {E V} (key : E -> string) (val : E -> V)
    (l : list E) (m : JsMap V) : JsMap V :=
  fold_left (fun m e => Map_set (key e) (val e) m) l m.

(** A usage value on which the method [indexOf] exists. *)
Definition usable (v : JsVal) : bool :=
  match v with
  | JArr _ | JStr _ => true
  | _ => false
  end.

(** A usage declaration that keeps the usage of the images usable: none, an
    array or a string. *)
Definition usageDeclared (v : JsVal) : bool := nullish v || usable v.

(** The value of a property read that is known not to throw. *)
Definition read (v : JsVal) (k : string) : JsVal :=
  match get v k with
  | Ok x => x
  | Throw _ => JUndefined
  end.

(** A pack event on which neither [parsePack] nor [getEmojis] throws: it is
    tolerated, and the usage of the pack and of every entry is declared as
    above. *)
Definition wellShaped (rawPack : RawEvent) : bool :=
  tolerated rawPack
  && usageDeclared (read (coalesce (read (content rawPack) "pack") (JObj [])) "usage")
  && match Object_entries (read (content rawPack) "images") with
     | Ok entries => forallb (fun e => usageDeclared (read (snd e) "usage")) entries
     | Throw _ => true
     end.

Definition roomShaped (room : Room) : bool :=
  forallb wellShaped (getStateEvents room "im.ponies.room_emotes").

(** A client whose account data and rooms hold well-shaped pack events
    only, and whose [emote_rooms] mapping has no [null] entry. *)
Definition clientShaped (mx : Client) : Prop :=
  (forall ev, getAccountData mx "im.ponies.user_emotes" = Some ev ->
              wellShaped ev = true) /\
  (forall rid room, getRoom mx rid = Some room -> roomShaped room = true) /\
  (forall ev, getAccountData mx "im.ponies.emote_rooms" = Some ev ->
              nullish (content ev) = false /\
              forall entries,
                Object_entries (coalesce (read (content ev) "rooms") (JObj []))
                = Ok entries ->
                forall e, In e entries -> nullish (snd e) = false).

(** A pack whose emoji can be listed. *)
Definition emojiReady (pack : ImagePack) : Prop :=
  forall i, In i (images pack) -> usable (usage_ i) = true.

(** The member [k] of the [pack] object of an event as [parsePack] reads it,
    [(rawPack.content.pack ?? {}).k]. *)
Definition packField (rawPack : RawEvent) (k : string) : JsVal :=
  read (coalesce (read (content rawPack) "pack") (JObj [])) k.

(** The event declares an images value: [typeof images !== 'undefined']. *)
Definition declaresImages (rawPack : RawEvent) : bool :=
  negb (is_undefined (read (content rawPack) "images")).

(** The shortcodes under which a standard emoji is entered in the table of
    [getShortcodeToEmoji]. *)
Definition aliases (e : StdEmoji) : list string :=
  match shortcodes e with
  | OneCode s => [s]
  | Codes l => l
  end.

(** A standard emoji declares the shortcode [k] among its aliases. *)
Definition declares (k : string) (e : StdEmoji) : bool :=
  existsb (fun a => String.eqb a k) (aliases e).

(** The last emoji of the table that declares [k], the one whose write to
    the key [k] is not overwritten by another standard emoji. *)
Definition lastDeclaring (emojis : list StdEmoji) (k : string) : option StdEmoji :=
  find (declares k) (rev emojis).

(** ** Sample data

    A client with a personal pack, a room with a room-local pack, and a pack
    room [!r:x] holding two packs of which the user enabled [pack1]; the
    account data also references a room the client no longer has. *)
Module Sample.

Definition img (url : string) : JsVal := JObj [("url", JStr url)].

Definition personalEvent : RawEvent :=
  mkRawEvent
    (JObj [("images",
            JObj [("x", img "mxc://s/personal-x");
                  ("wave", JObj [("url", JStr "mxc://s/wave");
                                 ("usage", JArr [JStr "sticker"])]);
                  ("draft", JObj [("body", JStr "no media yet")])])])
    None None.

Definition roomEvent : RawEvent :=
  mkRawEvent
    (JObj [("pack", JObj [("display_name", JStr "Room pack")]);
           ("images",
            JObj [("x", img "mxc://s/room-x"); ("y", img "mxc://s/room-y")])])
    (Some "") (Some "$room").

Definition pack1Event : RawEvent :=
  mkRawEvent
    (JObj [("images",
            JObj [("x", img "mxc://s/ext-x"); ("smile", img "mxc://s/smile")])])
    (Some "pack1") (Some "$pack1").

Definition pack2Event : RawEvent :=
  mkRawEvent
    (JObj [("images", JObj [("z", img "mxc://s/z")])])
    (Some "pack2") (Some "$pack2").

Definition noImagesEvent : RawEvent :=
  mkRawEvent (JObj [("pack", JObj [("display_name", JStr "Empty")])])
             (Some "") (Some "$none").

Definition emptyImagesEvent : RawEvent :=
  mkRawEvent (JObj [("images", JObj [])]) (Some "") (Some "$empty").

Definition nullImagesEvent : RawEvent :=
  mkRawEvent (JObj [("images", JNull)]) (Some "") (Some "$null").

Definition nullEntryEvent : RawEvent :=
  mkRawEvent (JObj [("images", JObj [("x", JNull)])]) (Some "") (Some "$entry").

Definition ofType (type : string) (events : list RawEvent) (t : string)
  : list RawEvent :=
  if String.eqb t type then events else [].

Definition here : Room :=
  mkRoom "!here:x" "Here" JNull (ofType "im.ponies.room_emotes" [roomEvent]).

Definition packRoom : Room :=
  mkRoom "!r:x" "Packs" (JStr "mxc://s/avatar")
         (ofType "im.ponies.room_emotes" [pack1Event; pack2Event]).

Definition brokenRoom : Room :=
  mkRoom "!broken:x" "Broken" JNull
         (ofType "im.ponies.room_emotes" [roomEvent; nullEntryEvent]).

Definition emoteRoomsEvent : RawEvent :=
  mkRawEvent
    (JObj [("rooms",
            JObj [("!r:x", JObj [("pack1", JObj [])]);
                  ("!left:x", JObj [("pack9", JObj [])])])])
    None None.

Definition rooms (id : string) : option Room :=
  if String.eqb id "!r:x" then Some packRoom
  else if String.eqb id "!here:x" then Some here
  else None.

Definition mx : Client :=
  mkClient
    (fun t =>
       if String.eqb t "im.ponies.user_emotes" then Some personalEvent
       else if String.eqb t "im.ponies.emote_rooms" then Some emoteRoomsEvent
       else None)
    rooms.

(** A client that has configured nothing. *)
Definition fresh : Client := mkClient (fun _ => None) rooms.

(** A client whose personal pack declares [images: null] and whose
    [emote_rooms] maps a room to [null]. *)
Definition careless : Client :=
  mkClient
    (fun t =>
       if String.eqb t "im.ponies.user_emotes" then Some nullImagesEvent
       else if String.eqb t "im.ponies.emote_rooms"
            then Some (mkRawEvent (JObj [("rooms", JObj [("!r:x", JNull)])])
                                  None None)
            else None)
    rooms.

Definition emojis : list StdEmoji :=
  [mkStdEmoji "1F600" "U+1F600" "grinning" (Codes ["grinning"; "grin"]);
   mkStdEmoji "1F604" "U+1F604" "smile" (OneCode "smile");
   mkStdEmoji "274C" "U+274C" "x" (Codes ["x"; "cross_mark"])].

End Sample.

(** ** Further sample data *)
Module Scenario.

(** A client that enabled a pack of [!broken:x], a room one of whose pack
    events has a [null] entry. *)
Definition rooms (id : string) : option Room :=
  if String.eqb id "!broken:x" then Some Sample.brokenRoom else Sample.rooms id.

Definition poisoned : Client :=
  mkClient
    (fun t =>
       if String.eqb t "im.ponies.emote_rooms"
       then Some (mkRawEvent
                    (JObj [("rooms", JObj [("!broken:x", JObj [("", JObj [])])])])
                    None None)
       else None)
    rooms.

(** A personal pack that declares its own name. *)
Definition namedEvent : RawEvent :=
  mkRawEvent
    (JObj [("pack", JObj [("display_name", JStr "Mine")]);
           ("images", JObj [("ok", Sample.img "mxc://s/ok")])])
    None None.

Definition named : Client :=
  mkClient
    (fun t => if String.eqb t "im.ponies.user_emotes" then Some namedEvent
              else if String.eqb t "im.ponies.emote_rooms"
                   then Some (mkRawEvent (JObj []) None None)
                   else None)
    Sample.rooms.

(** A pack event with a [null] entry beside an entry that has a media
    reference, and the same event with an empty object in place of
    [null]. *)
Definition nullSiblingEvent : RawEvent :=
  mkRawEvent
    (JObj [("images", JObj [("x", JNull); ("y", Sample.img "mxc://s/y")])])
    (Some "") (Some "$sibling").

Definition emptySiblingEvent : RawEvent :=
  mkRawEvent
    (JObj [("images", JObj [("x", JObj []); ("y", Sample.img "mxc://s/y")])])
    (Some "") (Some "$sibling").

(** A room with a pack event that declares no images between two that do. *)
Definition mixedRoom : Room :=
  mkRoom "!mixed:x" "Mixed" JNull
         (Sample.ofType "im.ponies.room_emotes"
            [Sample.pack1Event; Sample.noImagesEvent; Sample.pack2Event]).

End Scenario.

(** * Properties *)

(** ** The error monad *)

Lemma bind_Ok_inv {A B} (c : Completion A) (k : A -> Completion B) (b : B) :
  bind c k = Ok b -> exists a, c = Ok a /\ k a = Ok b.
Proof.
  destruct c as [a|e]; simpl; intros H; [exists a; auto | discriminate].
Qed.

Lemma bind_Ok {A B} (c : Completion A) (k : A -> Completion B) (a : A) :
  c = Ok a -> bind c k = k a.
Proof. intros ->. reflexivity. Qed.

(** Split a hypothesis [x <- c ;; k = Ok b] into the two steps. *)
Ltac inv_bind H :=
  let a := fresh "a" in
  let E := fresh "E" in
  apply bind_Ok_inv in H; destruct H as [a [E H]].

Lemma returns_Ok {A} (a : A) : returns (Ok a).
Proof. exists a. reflexivity. Qed.

Lemma throws_not_returns {A} (c : Completion A) : throws c -> ~ returns c.
Proof. intros [e He] [a Ha]. congruence. Qed.

Lemma flatMapM_app {A B} (f : A -> Completion (list B)) (l1 l2 : list A) r1 r2 :
  flatMapM f l1 = Ok r1 -> flatMapM f l2 = Ok r2 ->
  flatMapM f (l1 ++ l2) = Ok (r1 ++ r2).
Proof.
  revert r1. induction l1 as [|x l1 IH]; simpl; intros r1 H1 H2.
  - injection H1 as <-. exact H2.
  - inv_bind H1. inv_bind H1. injection H1 as <-.
    rewrite E. simpl. rewrite (IH _ E0 H2). simpl. now rewrite app_assoc.
Qed.

Lemma flatMapM_app_inv {A B} (f : A -> Completion (list B)) (l1 l2 : list A) r :
  flatMapM f (l1 ++ l2) = Ok r ->
  exists r1 r2, flatMapM f l1 = Ok r1 /\ flatMapM f l2 = Ok r2 /\ r = r1 ++ r2.
Proof.
  revert r. induction l1 as [|x l1 IH]; simpl; intros r H.
  - exists [], r. auto.
  - inv_bind H. inv_bind H. injection H as <-.
    destruct (IH _ E0) as (r1 & r2 & H1 & H2 & ->).
    exists (a ++ r1), r2. rewrite E, H1. simpl. now rewrite app_assoc.
Qed.

Lemma flatMapM_In {A B} (f : A -> Completion (list B)) (l : list A) r (y : B) :
  flatMapM f l = Ok r ->
  (In y r <-> exists x ys, In x l /\ f x = Ok ys /\ In y ys).
Proof.
  revert r. induction l as [|x l IH]; simpl; intros r H.
  - injection H as <-. split; [intros [] | intros (? & ? & [] & _)].
  - inv_bind H. inv_bind H. injection H as <-.
    rewrite in_app_iff, (IH _ E0). split.
    + intros [Hy | (x' & ys & Hx & Hf & Hy)].
      * exists x, a. auto.
      * exists x', ys. auto.
    + intros (x' & ys & [<- | Hx] & Hf & Hy).
      * left. congruence.
      * right. exists x', ys. auto.
Qed.

Lemma flatMapM_returns {A B} (f : A -> Completion (list B)) (l : list A) :
  (forall x, In x l -> returns (f x)) -> returns (flatMapM f l).
Proof.
  induction l as [|x l IH]; simpl; intros H.
  - apply returns_Ok.
  - destruct (H x (or_introl eq_refl)) as [ys ->].
    destruct IH as [zs ->]; [intros; apply H; auto |].
    apply returns_Ok.
Qed.

Lemma mapM_returns {A B} (f : A -> Completion B) (l : list A) :
  (forall x, In x l -> returns (f x)) -> returns (mapM f l).
Proof.
  induction l as [|x l IH]; simpl; intros H.
  - apply returns_Ok.
  - destruct (H x (or_introl eq_refl)) as [y ->].
    destruct IH as [ys ->]; [intros; apply H; auto |].
    apply returns_Ok.
Qed.

Lemma filterM_In {A} (p : A -> Completion bool) (l : list A) r (x : A) :
  filterM p l = Ok r -> (In x r <-> In x l /\ p x = Ok true).
Proof.
  revert r. induction l as [|y l IH]; simpl; intros r H.
  - injection H as <-. simpl. tauto.
  - inv_bind H. inv_bind H. injection H as <-.
    specialize (IH _ E0). destruct a; simpl; rewrite IH; split.
    + intros [<- | [? ?]]; auto.
    + intros [[<- | ?] ?]; auto.
    + intros [? ?]; auto.
    + intros [[<- | ?] ?]; auto. congruence.
Qed.

Lemma filterM_returns {A} (p : A -> Completion bool) (l : list A) :
  (forall x, In x l -> returns (p x)) -> returns (filterM p l).
Proof.
  induction l as [|x l IH]; simpl; intros H.
  - apply returns_Ok.
  - destruct (H x (or_introl eq_refl)) as [b ->].
    destruct IH as [ys ->]; [intros; apply H; auto |].
    apply returns_Ok.
Qed.

(** ** Reading JSON values *)

Lemma get_returns (v : JsVal) (k : string) :
  nullish v = false -> returns (get v k).
Proof.
  destruct v; simpl; try discriminate; intros _; try apply returns_Ok.
  destruct (lookup k props); apply returns_Ok.
Qed.

Lemma get_Ok_nullish (v : JsVal) (k : string) x :
  get v k = Ok x -> nullish v = false.
Proof. destruct v; simpl; intros H; try discriminate; reflexivity. Qed.

Lemma nullish_coalesce (a b : JsVal) :
  nullish b = false -> nullish (coalesce a b) = false.
Proof. unfold coalesce. destruct (nullish a) eqn:E; auto. Qed.

Lemma Object_entries_returns (v : JsVal) :
  nullish v = false -> returns (Object_entries v).
Proof. destruct v; simpl; try discriminate; intros _; apply returns_Ok. Qed.

Lemma is_undefined_nullish (v : JsVal) : is_undefined v = true -> nullish v = true.
Proof. destruct v; simpl; auto. Qed.

(** ** [parsePack] *)

Lemma get_pack_default (p : JsVal) (k : string) :
  returns (get (coalesce p (JObj [])) k).
Proof. apply get_returns, nullish_coalesce. reflexivity. Qed.

Lemma parseImage_Ok_inv (u : JsVal) (sc : string) (data : JsVal) l :
  parseImage u (sc, data) = Ok l ->
  exists url b inf us,
    get data "url" = Ok url /\ get data "body" = Ok b /\
    get data "info" = Ok inf /\ get data "usage" = Ok us /\
    l = if truthy url
        then [mkImage sc url (coalesce b (JStr sc)) inf (coalesce us u)]
        else [].
Proof.
  unfold parseImage. simpl. intros H.
  inv_bind H. inv_bind H. inv_bind H. inv_bind H.
  exists a, a0, a1, a2. repeat split; auto.
  destruct (truthy a); congruence.
Qed.

Lemma parseImage_returns (u : JsVal) (e : string * JsVal) :
  nullish (snd e) = false -> returns (parseImage u e).
Proof.
  intros Hn. unfold parseImage.
  destruct (get_returns _ "url" Hn) as [url ->].
  destruct (get_returns _ "body" Hn) as [b ->].
  destruct (get_returns _ "info" Hn) as [inf ->].
  destruct (get_returns _ "usage" Hn) as [us ->].
  simpl. destruct (truthy url); apply returns_Ok.
Qed.

Lemma parseImage_returns_inv (u : JsVal) (e : string * JsVal) :
  returns (parseImage u e) -> nullish (snd e) = false.
Proof.
  intros [l H]. unfold parseImage in H. inv_bind H.
  eapply get_Ok_nullish; eauto.
Qed.

Lemma parseImages_returns (u : JsVal) (entries : list (string * JsVal)) :
  returns (flatMapM (parseImage u) entries) <->
  forallb (fun e => negb (nullish (snd e))) entries = true.
Proof.
  induction entries as [|e entries IH]; simpl.
  - split; auto using returns_Ok.
  - rewrite andb_true_iff, negb_true_iff, <- IH. split.
    + intros [r H]. inv_bind H. inv_bind H. split.
      * apply (parseImage_returns_inv u). now exists a.
      * now exists a0.
    + intros [Hn [r Hr]]. destruct (parseImage_returns u e Hn) as [l ->].
      rewrite Hr. apply returns_Ok.
Qed.

(** The images of a parsed list keep the order of the entries: their
    shortcodes are the keys of the entries that have a media reference. *)
Lemma parseImages_shortcodes (u : JsVal) (entries : list (string * JsVal)) l :
  flatMapM (parseImage u) entries = Ok l ->
  map shortcode l = map fst (filter (fun e => hasMedia (snd e)) entries).
Proof.
  revert l. induction entries as [|[sc data] entries IH]; simpl; intros l H.
  - now injection H as <-.
  - inv_bind H. inv_bind H. injection H as <-.
    destruct (parseImage_Ok_inv _ _ _ E) as (url & b & inf & us & Hu & _ & _ & _ & ->).
    unfold hasMedia. rewrite Hu. rewrite map_app, (IH _ E0).
    destruct (truthy url); reflexivity.
Qed.

(** What a successful parse tells about the event. *)
Lemma parsePack_Some_inv (rawPack : RawEvent) (room : option Room) (p : ImagePack) :
  parsePack rawPack room = Ok (Some p) ->
  exists imgs entries,
    get (content rawPack) "images" = Ok imgs /\
    is_undefined imgs = false /\
    Object_entries imgs = Ok entries /\
    flatMapM (parseImage (usage p)) entries = Ok (images p) /\
    event p = rawPack.
Proof.
  unfold parsePack. intros H. inv_bind H.
  destruct (is_undefined a) eqn:Hu; [discriminate |].
  do 7 inv_bind H. injection H as <-. simpl.
  exists a, a5. auto.
Qed.

Lemma parsePack_undefined (rawPack : RawEvent) (room : option Room) :
  get (content rawPack) "images" = Ok JUndefined ->
  parsePack rawPack room = Ok None.
Proof. unfold parsePack. intros ->. reflexivity. Qed.

(** [parsePack] returns exactly on the tolerated events. *)
Lemma parsePack_returns_iff (rawPack : RawEvent) (room : option Room) :
  returns (parsePack rawPack room) <-> tolerated rawPack = true.
Proof.
  unfold tolerated, parsePack.
  destruct (get (content rawPack) "images") as [imgs|e] eqn:Hi; simpl.
  2:{ split; [intros [? ?]; discriminate | discriminate]. }
  destruct (is_undefined imgs) eqn:Hu; simpl.
  { split; auto using returns_Ok. }
  assert (Hc : nullish (content rawPack) = false) by (eapply get_Ok_nullish; eauto).
  destruct (get_returns _ "pack" Hc) as [pk ->]. simpl.
  destruct (get_pack_default pk "display_name") as [dn ->].
  destruct (get_pack_default pk "avatar_url") as [av ->].
  destruct (get_pack_default pk "usage") as [us ->].
  destruct (get_pack_default pk "attribution") as [at' ->]. simpl.
  destruct (Object_entries imgs) as [entries|e]; simpl.
  2:{ split; [intros [? ?]; discriminate | discriminate]. }
  rewrite <- (parseImages_returns (coalesce us default_usage)). split.
  - intros [r H]. inv_bind H. now exists a.
  - intros [l ->]. apply returns_Ok.
Qed.

Lemma parsePack_Some (rawPack : RawEvent) (room : option Room) imgs :
  tolerated rawPack = true ->
  get (content rawPack) "images" = Ok imgs ->
  is_undefined imgs = false ->
  exists p, parsePack rawPack room = Ok (Some p).
Proof.
  intros Ht Hi Hu. apply (parsePack_returns_iff rawPack room) in Ht.
  destruct Ht as [[p|] H]; [now exists p |].
  exfalso. revert H. unfold parsePack. rewrite Hi. simpl. rewrite Hu.
  intros H. do 7 inv_bind H. discriminate.
Qed.

(** The images of a pack parsed from an object carry pairwise distinct
    shortcodes, since the keys of an object are distinct. *)
Lemma parsePack_shortcodes_NoDup
    (rawPack : RawEvent) (room : option Room) (p : ImagePack)
    (props : list (string * JsVal)) :
  get (content rawPack) "images" = Ok (JObj props) ->
  NoDup (map fst props) ->
  parsePack rawPack room = Ok (Some p) ->
  NoDup (map shortcode (images p)).
Proof.
  intros Hi Hnd Hp.
  destruct (parsePack_Some_inv _ _ Hp) as (imgs & entries & Hi' & _ & He & Hf & _).
  rewrite Hi in Hi'. injection Hi' as <-. simpl in He. injection He as <-.
  rewrite (parseImages_shortcodes _ _ Hf). clear - Hnd.
  induction props as [|[k v] props IH]; simpl; [constructor |].
  simpl in Hnd. apply NoDup_cons_iff in Hnd. destruct Hnd as [Hk Hrest].
  destruct (hasMedia v); simpl; [| auto].
  constructor; [| auto].
  intros Hin. apply Hk. apply in_map_iff in Hin. destruct Hin as (kv & <- & Hkv).
  apply in_map. apply filter_In in Hkv. tauto.
Qed.

(** C6.  A pack event whose content has no images mapping parses to [null],
    whatever the fallback room; nothing is thrown. *)
Theorem parsePack_missing_images_null (rawPack : RawEvent) (room : option Room) :
  get (content rawPack) "images" = Ok JUndefined ->
  parsePack rawPack room = Ok None.
Proof. apply parsePack_undefined. Qed.

Lemma parsePack_missing_images_null_witness :
  parsePack Sample.noImagesEvent (Some Sample.here) = Ok None.
Proof. apply parsePack_missing_images_null. reflexivity. Defined.

(** C5, as the specification states it, fails: an event that declares an
    empty images mapping is parsed into a pack. *)
Lemma parsePack_empty_images_counterexample :
  ~ (forall rawPack room imgs,
        get (content rawPack) "images" = Ok imgs ->
        imgs = JUndefined \/ Object_entries imgs = Ok [] ->
        forall p, parsePack rawPack room <> Ok (Some p)).
Proof.
  intros H.
  eapply (H Sample.emptyImagesEvent None (JObj [])); [reflexivity | now right |].
  vm_compute. reflexivity.
Qed.

(** C5, amended.  [parsePack] constructs a pack only for an event that
    declares an images value; an event without one gives no pack, and an
    event with an empty images mapping gives a pack with no image. *)
Theorem parsePack_constructs_only_with_images (rawPack : RawEvent) (room : option Room) :
  (forall p, parsePack rawPack room = Ok (Some p) ->
             exists imgs, get (content rawPack) "images" = Ok imgs /\
                          is_undefined imgs = false) /\
  (get (content rawPack) "images" = Ok JUndefined ->
   parsePack rawPack room = Ok None) /\
  (get (content rawPack) "images" = Ok (JObj []) ->
   exists p, parsePack rawPack room = Ok (Some p) /\ images p = []).
Proof.
  split; [| split].
  - intros p H. destruct (parsePack_Some_inv _ _ H) as (imgs & _ & Hi & Hu & _).
    now exists imgs.
  - apply parsePack_undefined.
  - intros Hi.
    assert (Ht : tolerated rawPack = true) by (unfold tolerated; now rewrite Hi).
    destruct (parsePack_Some rawPack room Ht Hi eq_refl) as [p Hp].
    exists p. split; [exact Hp |].
    destruct (parsePack_Some_inv _ _ Hp) as (imgs & entries & Hi' & _ & He & Hf & _).
    rewrite Hi in Hi'. injection Hi' as <-. simpl in He. injection He as <-.
    simpl in Hf. congruence.
Qed.

Lemma parsePack_constructs_only_with_images_witness :
  (exists imgs, get (content Sample.pack1Event) "images" = Ok imgs /\
                is_undefined imgs = false) /\
  parsePack Sample.noImagesEvent None = Ok None /\
  (exists p, parsePack Sample.emptyImagesEvent None = Ok (Some p) /\ images p = []).
Proof.
  split; [| split].
  - eapply (proj1 (parsePack_constructs_only_with_images Sample.pack1Event None)).
    vm_compute. reflexivity.
  - apply (proj1 (proj2 (parsePack_constructs_only_with_images
                           Sample.noImagesEvent None))).
    reflexivity.
  - apply (proj2 (proj2 (parsePack_constructs_only_with_images
                           Sample.emptyImagesEvent None))).
    reflexivity.
Defined.

(** X25.  On an event that [parsePack] tolerates and that declares images,
    a pack is returned whose images are the entries that have a media
    reference, in their order: an entry without one is left out, an entry
    with one is kept under its shortcode, with its body (the shortcode when
    it has none) and its usage (the usage of the pack when it has none). *)
Theorem parsePack_keeps_entries_with_media
    (rawPack : RawEvent) (room : option Room) (imgs : JsVal) :
  tolerated rawPack = true ->
  get (content rawPack) "images" = Ok imgs ->
  is_undefined imgs = false ->
  exists p entries,
    parsePack rawPack room = Ok (Some p) /\
    Object_entries imgs = Ok entries /\
    map shortcode (images p) =
      map fst (filter (fun e => hasMedia (snd e)) entries) /\
    (forall i, In i (images p) ->
       truthy (mxc i) = true /\
       exists data, In (shortcode i, data) entries /\ get data "url" = Ok (mxc i)) /\
    (forall sc data, In (sc, data) entries -> hasMedia data = true ->
       exists url b inf us,
         get data "url" = Ok url /\ get data "body" = Ok b /\
         get data "info" = Ok inf /\ get data "usage" = Ok us /\
         In (mkImage sc url (coalesce b (JStr sc)) inf (coalesce us (usage p)))
            (images p)).
Proof.
  intros Ht Hi Hu.
  destruct (parsePack_Some rawPack room Ht Hi Hu) as [p Hp].
  destruct (parsePack_Some_inv _ _ Hp) as (imgs' & entries & Hi' & _ & He & Hf & _).
  rewrite Hi in Hi'. injection Hi' as <-.
  exists p, entries. split; [exact Hp |]. split; [exact He |].
  split; [exact (parseImages_shortcodes _ _ Hf) |]. split.
  - intros i Hin.
    apply (flatMapM_In _ _ i Hf) in Hin.
    destruct Hin as ([sc data] & ys & Hx & Hy & Hin).
    destruct (parseImage_Ok_inv _ _ _ Hy) as (url & b & inf & us & Hurl & _ & _ & _ & ->).
    destruct (truthy url) eqn:Htr; [| destruct Hin].
    destruct Hin as [<- | []]. simpl. split; [exact Htr |].
    exists data. auto.
  - intros sc data Hin Hm.
    assert (Hr : returns (parseImage (usage p) (sc, data))).
    { apply parseImage_returns. simpl. unfold hasMedia in Hm.
      destruct data; simpl in *; try discriminate; reflexivity. }
    destruct Hr as [l Hl].
    destruct (parseImage_Ok_inv _ _ _ Hl) as (url & b & inf & us & Hurl & Hb & Hinf & Hus & ->).
    exists url, b, inf, us. repeat (split; [assumption |]).
    apply (flatMapM_In _ _ _ Hf). exists (sc, data). eexists.
    split; [exact Hin |]. split; [exact Hl |].
    unfold hasMedia in Hm. rewrite Hurl in Hm. rewrite Hm. now left.
Qed.

Lemma parsePack_keeps_entries_with_media_witness :
  exists p entries,
    parsePack Sample.personalEvent None = Ok (Some p) /\
    Object_entries
      (JObj [("x", Sample.img "mxc://s/personal-x");
             ("wave", JObj [("url", JStr "mxc://s/wave");
                            ("usage", JArr [JStr "sticker"])]);
             ("draft", JObj [("body", JStr "no media yet")])]) = Ok entries /\
    map shortcode (images p) =
      map fst (filter (fun e => hasMedia (snd e)) entries) /\
    (forall i, In i (images p) ->
       truthy (mxc i) = true /\
       exists data, In (shortcode i, data) entries /\ get data "url" = Ok (mxc i)) /\
    (forall sc data, In (sc, data) entries -> hasMedia data = true ->
       exists url b inf us,
         get data "url" = Ok url /\ get data "body" = Ok b /\
         get data "info" = Ok inf /\ get data "usage" = Ok us /\
         In (mkImage sc url (coalesce b (JStr sc)) inf (coalesce us (usage p)))
            (images p)).
Proof.
  apply (parsePack_keeps_entries_with_media Sample.personalEvent None);
    reflexivity.
Defined.

(** ** [getUserImagePack] *)

(** C9.  Without [im.ponies.user_emotes] account data the personal pack is
    [null]; when the account data parses to a pack that has no display name,
    the pack is returned under the name "Your Emoji". *)
Theorem getUserImagePack_absent_or_unnamed (mx : Client) :
  (getAccountData mx "im.ponies.user_emotes" = None ->
   getUserImagePack mx = Ok None) /\
  (forall ev p,
      getAccountData mx "im.ponies.user_emotes" = Some ev ->
      parsePack ev None = Ok (Some p) ->
      nullish (displayName p) = true ->
      exists q, getUserImagePack mx = Ok (Some q) /\
                displayName q = JStr "Your Emoji" /\
                images q = images p /\ event q = ev).
Proof.
  unfold getUserImagePack. split.
  - intros ->. reflexivity.
  - intros ev p -> Hp Hn. rewrite Hp. simpl.
    exists (defaultDisplayName p). split; [reflexivity |].
    unfold defaultDisplayName, coalesce. rewrite Hn. simpl.
    destruct (parsePack_Some_inv _ _ Hp) as (_ & _ & _ & _ & _ & _ & He).
    auto.
Qed.

Lemma getUserImagePack_absent_or_unnamed_witness :
  getUserImagePack Sample.fresh = Ok None /\
  exists q, getUserImagePack Sample.mx = Ok (Some q) /\
            displayName q = JStr "Your Emoji" /\
            images q =
              [mkImage "x" (JStr "mxc://s/personal-x") (JStr "x") JUndefined
                       default_usage;
               mkImage "wave" (JStr "mxc://s/wave") (JStr "wave") JUndefined
                       (JArr [JStr "sticker"])] /\
            event q = Sample.personalEvent.
Proof.
  split.
  - apply (proj1 (getUserImagePack_absent_or_unnamed Sample.fresh)). reflexivity.
  - exact (proj2 (getUserImagePack_absent_or_unnamed Sample.mx)
                 Sample.personalEvent
                 (mkImagePack JUndefined JUndefined default_usage JUndefined
                    [mkImage "x" (JStr "mxc://s/personal-x") (JStr "x") JUndefined
                             default_usage;
                     mkImage "wave" (JStr "mxc://s/wave") (JStr "wave") JUndefined
                             (JArr [JStr "sticker"])]
                    Sample.personalEvent)
                 eq_refl eq_refl eq_refl).
Defined.

(** ** [Array.prototype.indexOf] *)

Lemma Array_indexOf_ge {A} (eqb : A -> A -> bool) (l : list A) (x : A) :
  (-1 <= Array_indexOf eqb l x)%Z.
Proof.
  induction l as [|y l IH]; simpl; [lia |].
  destruct (eqb y x); [lia |].
  destruct (Z.eqb_spec (Array_indexOf eqb l x) (-1)); lia.
Qed.

Lemma Array_indexOf_absent {A} (eqb : A -> A -> bool) (l : list A) (x : A) :
  Array_indexOf eqb l x = (-1)%Z <-> forall y, In y l -> eqb y x = false.
Proof.
  induction l as [|y l IH]; simpl.
  - split; [intros _ ? [] | reflexivity].
  - destruct (eqb y x) eqn:E.
    + split; [discriminate |]. intros H. specialize (H y (or_introl eq_refl)).
      congruence.
    + pose proof (Array_indexOf_ge eqb l x) as Hge.
      destruct (Z.eqb_spec (Array_indexOf eqb l x) (-1)) as [Hr | Hr].
      * split; [| reflexivity]. intros _ z [<- | Hz]; [exact E |].
        now apply (proj1 IH Hr).
      * split; [lia |]. intros H. exfalso. apply Hr, IH. auto.
Qed.

Lemma Array_indexOf_present {A} (eqb : A -> A -> bool) (l : list A) (x : A) :
  Array_indexOf eqb l x <> (-1)%Z <-> exists y, In y l /\ eqb y x = true.
Proof.
  rewrite Array_indexOf_absent. split.
  - intros H. induction l as [|y l IH].
    + exfalso. apply H. intros ? [].
    + destruct (eqb y x) eqn:E.
      * exists y. simpl. auto.
      * destruct IH as (z & Hz & Ez).
        { intros Hall. apply H. intros z [<- | Hz]; auto. }
        exists z. simpl. auto.
  - intros (y & Hy & Ey) H. rewrite (H y Hy) in Ey. discriminate.
Qed.

Lemma opt_string_eqb_eq (a b : option string) :
  opt_string_eqb a b = true <-> a = b.
Proof.
  destruct a as [s|], b as [t|]; simpl; try (split; congruence).
  rewrite String.eqb_eq. split; congruence.
Qed.

(** ** [getFromImagePackRooms] *)

Lemma keyEnabled_iff (keys : list string) (pack : ImagePack) :
  keyEnabled keys pack = true <->
  exists k, state_key (event pack) = Some k /\ In k keys.
Proof.
  unfold keyEnabled. rewrite negb_true_iff, Z.eqb_neq, Array_indexOf_present.
  split.
  - intros (y & Hy & Ey). apply opt_string_eqb_eq in Ey. subst y.
    apply in_map_iff in Hy. destruct Hy as (k & Hk & Hin). exists k. auto.
  - intros (k & Hk & Hin). exists (Some k). split.
    + now apply in_map.
    + rewrite Hk. now apply opt_string_eqb_eq.
Qed.

Lemma packsOfEmoteRoom_Ok_inv (mx : Client) (rid : string) (ko : JsVal) ys :
  packsOfEmoteRoom mx (rid, ko) = Ok ys ->
  exists keys,
    Object_keys ko = Ok keys /\
    ((exists room packs,
         getRoom mx rid = Some room /\ getPacksInRoom room = Ok packs /\
         ys = filter (keyEnabled keys) packs) \/
     (getRoom mx rid = None /\ ys = [])).
Proof.
  unfold packsOfEmoteRoom. simpl. intros H. inv_bind H.
  exists a. split; [exact E |].
  destruct (getRoom mx rid) as [room|].
  - inv_bind H. injection H as <-. left. exists room, a0. auto.
  - injection H as <-. right. auto.
Qed.

Lemma Object_keys_returns (v : JsVal) :
  nullish v = false -> returns (Object_keys v).
Proof.
  intros H. unfold Object_keys.
  destruct (Object_entries_returns v H) as [es ->]. apply returns_Ok.
Qed.

(** C8.  With an [im.ponies.emote_rooms] account data whose rooms mapping
    lists enabled state keys per room, [getFromImagePackRooms] returns,
    for the referenced rooms that the client has loaded, exactly the packs of
    the room whose state key is enabled; a referenced room that is not
    loaded contributes nothing and raises nothing. *)
Theorem getFromImagePackRooms_enabled_only
    (mx : Client) (ev : RawEvent) (emoteRooms : list (string * JsVal)) :
  getAccountData mx "im.ponies.emote_rooms" = Some ev ->
  get (content ev) "rooms" = Ok (JObj emoteRooms) ->
  (forall rid keyObjects, In (rid, keyObjects) emoteRooms -> nullish keyObjects = false) ->
  (forall rid keyObjects room,
      In (rid, keyObjects) emoteRooms -> getRoom mx rid = Some room ->
      returns (getPacksInRoom room)) ->
  exists result,
    getFromImagePackRooms mx = Ok result /\
    forall pack,
      In pack result <->
      exists rid keyObjects keys room packs k,
        In (rid, keyObjects) emoteRooms /\ Object_keys keyObjects = Ok keys /\
        getRoom mx rid = Some room /\ getPacksInRoom room = Ok packs /\
        In pack packs /\ state_key (event pack) = Some k /\ In k keys.
Proof.
  intros Hacc Hrooms Hkeys Hpacks.
  assert (Hret : returns (flatMapM (packsOfEmoteRoom mx) emoteRooms)).
  { apply flatMapM_returns. intros [rid ko] Hin. unfold packsOfEmoteRoom. simpl.
    destruct (Object_keys_returns ko (Hkeys _ _ Hin)) as [keys ->]. simpl.
    destruct (getRoom mx rid) as [room|] eqn:Hr; [| apply returns_Ok].
    destruct (Hpacks _ _ _ Hin Hr) as [packs ->]. apply returns_Ok. }
  destruct Hret as [result Hres]. exists result. split.
  - unfold getFromImagePackRooms. rewrite Hacc, Hrooms. simpl. exact Hres.
  - intros pack. rewrite (flatMapM_In _ _ pack Hres). split.
    + intros ([rid ko] & ys & Hin & Hys & Hp).
      destruct (packsOfEmoteRoom_Ok_inv _ _ _ Hys)
        as (keys & Hk & [(room & packs & Hr & Hg & ->) | [_ ->]]); [| destruct Hp].
      apply filter_In in Hp. destruct Hp as [Hp He].
      apply keyEnabled_iff in He. destruct He as (k & Hsk & Hkin).
      exists rid, ko, keys, room, packs, k. auto 10.
    + intros (rid & ko & keys & room & packs & k & Hin & Hk & Hr & Hg & Hp & Hsk & Hkin).
      exists (rid, ko), (filter (keyEnabled keys) packs).
      split; [exact Hin |]. split.
      * unfold packsOfEmoteRoom. simpl. rewrite Hk. simpl. rewrite Hr, Hg.
        reflexivity.
      * apply filter_In. split; [exact Hp |]. apply keyEnabled_iff. eauto.
Qed.

Lemma getFromImagePackRooms_enabled_only_witness :
  exists result,
    getFromImagePackRooms Sample.mx = Ok result /\
    forall pack,
      In pack result <->
      exists rid keyObjects keys room packs k,
        In (rid, keyObjects)
           [("!r:x", JObj [("pack1", JObj [])]);
            ("!left:x", JObj [("pack9", JObj [])])] /\
        Object_keys keyObjects = Ok keys /\
        getRoom Sample.mx rid = Some room /\ getPacksInRoom room = Ok packs /\
        In pack packs /\ state_key (event pack) = Some k /\ In k keys.
Proof.
  apply (@getFromImagePackRooms_enabled_only Sample.mx Sample.emoteRoomsEvent).
  - reflexivity.
  - reflexivity.
  - intros rid ko [H | [H | []]]; injection H as <- <-; reflexivity.
  - intros rid ko room [H | [H | []]] Hr; injection H as <- <-.
    + injection Hr as <-. eexists. vm_compute. reflexivity.
    + discriminate Hr.
Defined.

(** The scenario of the specification: [!r:x] holds [pack1] and [pack2],
    only [pack1] is enabled, and a second referenced room is not loaded. *)
Example getFromImagePackRooms_scenario :
  exists p,
    parsePack Sample.pack1Event (Some Sample.packRoom) = Ok (Some p) /\
    getFromImagePackRooms Sample.mx = Ok [p].
Proof. eexists. split; vm_compute; reflexivity. Qed.

(** ** [getRelevantPacks] *)

Lemma Array_indexOf_lt {A} (eqb : A -> A -> bool) (l : list A) (x : A) :
  (Array_indexOf eqb l x < Z.of_nat (List.length l))%Z.
Proof.
  induction l as [|y l IH]; simpl List.length; simpl Array_indexOf; [lia |].
  destruct (eqb y x); [lia |].
  destruct (Z.eqb_spec (Array_indexOf eqb l x) (-1)); lia.
Qed.

Lemma Array_indexOf_app_l {A} (eqb : A -> A -> bool) (l1 l2 : list A) (x : A) :
  Array_indexOf eqb l1 x <> (-1)%Z ->
  Array_indexOf eqb (l1 ++ l2) x = Array_indexOf eqb l1 x.
Proof.
  induction l1 as [|y l1 IH]; simpl; [congruence |].
  destruct (eqb y x); [reflexivity |].
  destruct (Z.eqb_spec (Array_indexOf eqb l1 x) (-1)) as [E | E]; [congruence |].
  intros _. rewrite (IH E).
  destruct (Z.eqb_spec (Array_indexOf eqb l1 x) (-1)); congruence.
Qed.

Lemma Array_indexOf_app_r {A} (eqb : A -> A -> bool) (l1 l2 : list A) (x : A) :
  Array_indexOf eqb l1 x = (-1)%Z -> eqb x x = true ->
  Array_indexOf eqb (l1 ++ x :: l2) x = Z.of_nat (List.length l1).
Proof.
  intros H Hx. induction l1 as [|y l1 IH]; simpl Array_indexOf.
  - rewrite Hx. reflexivity.
  - simpl in H. destruct (eqb y x); [discriminate |].
    destruct (Z.eqb_spec (Array_indexOf eqb l1 x) (-1)) as [E | E].
    2:{ pose proof (Array_indexOf_ge eqb l1 x). lia. }
    rewrite (IH E). simpl List.length.
    destruct (Z.eqb_spec (Z.of_nat (List.length l1)) (-1)); lia.
Qed.

Lemma existsb_indexOf {A} (eqb : A -> A -> bool) (l : list A) (x : A) :
  existsb (fun y => eqb y x) l = negb (Z.eqb (Array_indexOf eqb l x) (-1)).
Proof.
  destruct (existsb (fun y => eqb y x) l) eqn:E; symmetry.
  - apply negb_true_iff, Z.eqb_neq, Array_indexOf_present.
    apply existsb_exists in E. exact E.
  - apply negb_false_iff, Z.eqb_eq, Array_indexOf_absent.
    intros y Hy. destruct (eqb y x) eqn:Ey; [| reflexivity].
    assert (existsb (fun y => eqb y x) l = true)
      by (apply existsb_exists; eauto).
    congruence.
Qed.

(** The test of [getRelevantPacks] at the position of a pack: its event id
    has its first index there exactly when no earlier pack carries it. *)
Lemma first_index_here (pre post : list ImagePack) (p : ImagePack) :
  Z.eqb (Array_indexOf opt_string_eqb (map packId (pre ++ p :: post)) (packId p))
        (Z.of_nat (List.length pre))
  = negb (existsb (fun s => opt_string_eqb s (packId p)) (map packId pre)).
Proof.
  rewrite map_app. simpl map. rewrite existsb_indexOf, negb_involutive.
  destruct (Z.eqb_spec (Array_indexOf opt_string_eqb (map packId pre) (packId p)) (-1))
    as [E | E].
  - rewrite Array_indexOf_app_r; auto.
    + rewrite length_map. apply Z.eqb_refl.
    + now apply opt_string_eqb_eq.
  - rewrite Array_indexOf_app_l by exact E.
    pose proof (Array_indexOf_lt opt_string_eqb (map packId pre) (packId p)) as Hlt.
    rewrite length_map in Hlt. apply Z.eqb_neq. lia.
Qed.

Lemma existsb_opt_string_trans (seen : list (option string)) a b :
  existsb (fun s => opt_string_eqb s a) seen = true ->
  opt_string_eqb a b = true ->
  existsb (fun s => opt_string_eqb s b) seen = true.
Proof. intros H E. apply opt_string_eqb_eq in E. now subst. Qed.

Lemma dedupPacks_from (l pre : list ImagePack) (seen : list (option string)) :
  (forall x, existsb (fun s => opt_string_eqb s x) seen =
             existsb (fun s => opt_string_eqb s x) (map packId pre)) ->
  filteri_from
    (fun pack indx =>
       Z.eqb (Array_indexOf opt_string_eqb (map packId (pre ++ l)) (packId pack))
             (Z.of_nat indx))
    (List.length pre) l
  = dedupFirst seen l.
Proof.
  revert pre seen. induction l as [|p l IH]; intros pre seen Hseen; [reflexivity |].
  simpl filteri_from. simpl dedupFirst.
  rewrite first_index_here, <- Hseen.
  assert (Hlen : S (List.length pre) = List.length (pre ++ [p]))
    by (rewrite length_app; simpl; lia).
  assert (Happ : pre ++ p :: l = (pre ++ [p]) ++ l)
    by (rewrite <- app_assoc; reflexivity).
  rewrite Hlen, Happ.
  destruct (existsb (fun s => opt_string_eqb s (packId p)) seen) eqn:E; simpl.
  - apply IH. intros x. rewrite map_app, existsb_app, <- Hseen. simpl.
    rewrite orb_false_r.
    destruct (opt_string_eqb (packId p) x) eqn:Ex.
    + rewrite (existsb_opt_string_trans _ _ _ E Ex). reflexivity.
    + now rewrite orb_false_r.
  - f_equal. apply IH. intros x.
    rewrite map_app, !existsb_app, <- Hseen. reflexivity.
Qed.

(** The index test of the source computes the first-occurrence
    deduplication. *)
Lemma dedupPacks_spec (packs : list ImagePack) :
  dedupPacks packs = dedupByEventId packs.
Proof.
  unfold dedupPacks, dedupByEventId, filteri.
  apply (dedupPacks_from packs [] []). reflexivity.
Qed.

Lemma existsb_opt_string_In (seen : list (option string)) (x : option string) :
  existsb (fun s => opt_string_eqb s x) seen = true <-> In x seen.
Proof.
  rewrite existsb_exists. split.
  - intros (y & Hy & E). apply opt_string_eqb_eq in E. now subst.
  - intros H. exists x. split; [exact H |]. now apply opt_string_eqb_eq.
Qed.

Lemma dedupFirst_In (l : list ImagePack) (seen : list (option string)) (p : ImagePack) :
  In p (dedupFirst seen l) <->
  exists l1 l2, l = l1 ++ p :: l2 /\ ~ In (packId p) (seen ++ map packId l1).
Proof.
  revert seen. induction l as [|q l IH]; intros seen; simpl.
  - split; [intros [] | intros ([|? ?] & ? & ? & _); discriminate].
  - destruct (existsb (fun s => opt_string_eqb s (packId q)) seen) eqn:E.
    + apply existsb_opt_string_In in E. rewrite IH. split.
      * intros (l1 & l2 & -> & Hn). exists (q :: l1), l2. split; [reflexivity |].
        simpl. rewrite in_app_iff in *. simpl. intros [H | [H | H]]; auto.
        apply Hn. left. congruence.
      * intros ([|q' l1] & l2 & Hl & Hn); simpl in Hl; injection Hl as <- ->.
        -- exfalso. apply Hn. apply in_app_iff. auto.
        -- exists l1, l2. split; [reflexivity |].
           intros H. apply Hn. simpl. rewrite in_app_iff in *. simpl. tauto.
    + assert (E' : ~ In (packId q) seen).
      { intros H. apply existsb_opt_string_In in H. congruence. }
      simpl. rewrite IH. split.
      * intros [<- | (l1 & l2 & -> & Hn)].
        -- exists [], l. split; [reflexivity |]. simpl. now rewrite app_nil_r.
        -- exists (q :: l1), l2. split; [reflexivity |].
           simpl. intros H. apply Hn. rewrite !in_app_iff in *. simpl in *. tauto.
      * intros ([|q' l1] & l2 & Hl & Hn); simpl in Hl; injection Hl as <- ->.
        -- now left.
        -- right. exists l1, l2. split; [reflexivity |].
           intros H. apply Hn. simpl. rewrite !in_app_iff in *. simpl in *. tauto.
Qed.

Lemma dedupFirst_NoDup (l : list ImagePack) (seen : list (option string)) :
  NoDup (map packId (dedupFirst seen l)) /\
  forall p, In p (dedupFirst seen l) -> ~ In (packId p) seen.
Proof.
  revert seen. induction l as [|q l IH]; intros seen; simpl.
  - split; [constructor | intros ? []].
  - destruct (existsb (fun s => opt_string_eqb s (packId q)) seen) eqn:E.
    + apply IH.
    + destruct (IH (seen ++ [packId q])) as [Hnd Hfresh]. split.
      * simpl. constructor; [| exact Hnd].
        intros H. apply in_map_iff in H. destruct H as (p & Hid & Hp).
        apply (Hfresh p Hp). rewrite Hid. apply in_app_iff. simpl. auto.
      * intros p [<- | Hp].
        -- intros H. apply existsb_opt_string_In in H. congruence.
        -- intros H. apply (Hfresh p Hp). apply in_app_iff. auto.
Qed.

(** C3.  [getRelevantPacks] concatenates the personal pack, the packs of
    the room and the enabled packs of the pack rooms in this order and keeps,
    for every source event id, the first pack that carries it: the result is
    the first-occurrence deduplication of the concatenation and holds no two
    packs with the same event id. *)
Theorem getRelevantPacks_concat_dedup
    (mx : Client) (room : Room)
    (user : option ImagePack) (inRoom external : list ImagePack) :
  getUserImagePack mx = Ok user ->
  getPacksInRoom room = Ok inRoom ->
  getFromImagePackRooms mx = Ok external ->
  exists result,
    getRelevantPacks mx room = Ok result /\
    result = dedupByEventId (optList user ++ inRoom ++ external) /\
    NoDup (map packId result) /\
    forall p,
      In p result <->
      exists before after,
        optList user ++ inRoom ++ external = before ++ p :: after /\
        ~ In (packId p) (map packId before).
Proof.
  intros Hu Hr He. exists (dedupPacks (optList user ++ inRoom ++ external)).
  split.
  - unfold getRelevantPacks. rewrite Hu, Hr, He. reflexivity.
  - rewrite dedupPacks_spec. split; [reflexivity |]. split.
    + apply dedupFirst_NoDup.
    + intros p. unfold dedupByEventId. rewrite dedupFirst_In. reflexivity.
Qed.

Lemma getRelevantPacks_concat_dedup_witness :
  exists user inRoom external result,
    getUserImagePack Sample.mx = Ok user /\
    getPacksInRoom Sample.packRoom = Ok inRoom /\
    getFromImagePackRooms Sample.mx = Ok external /\
    List.length (optList user ++ inRoom ++ external) = 4 /\
    getRelevantPacks Sample.mx Sample.packRoom = Ok result /\
    result = dedupByEventId (optList user ++ inRoom ++ external) /\
    NoDup (map packId result) /\
    forall p,
      In p result <->
      exists before after,
        optList user ++ inRoom ++ external = before ++ p :: after /\
        ~ In (packId p) (map packId before).
Proof.
  do 3 eexists.
  assert (Hu : getUserImagePack Sample.mx = Ok _) by (vm_compute; reflexivity).
  assert (Hr : getPacksInRoom Sample.packRoom = Ok _) by (vm_compute; reflexivity).
  assert (He : getFromImagePackRooms Sample.mx = Ok _) by (vm_compute; reflexivity).
  destruct (getRelevantPacks_concat_dedup Sample.mx Sample.packRoom Hu Hr He)
    as (result & H).
  exists result. split; [exact Hu |]. split; [exact Hr |]. split; [exact He |].
  split; [reflexivity | exact H].
Defined.

(** ** Insertion-ordered maps *)

Section MapFacts.

Context {V : Type}.

Lemma Map_get_set (m : JsMap V) (k k' : string) (v : V) :
  Map_get (Map_set k v m) k' = if String.eqb k k' then Some v else Map_get m k'.
Proof.
  induction m as [|[k0 v0] m IH]; simpl.
  - reflexivity.
  - destruct (String.eqb_spec k0 k) as [-> | Hk]; simpl.
    + destruct (String.eqb k k'); reflexivity.
    + rewrite IH. destruct (String.eqb_spec k0 k') as [-> | Hk'];
        [| reflexivity].
      destruct (String.eqb_spec k k'); congruence.
Qed.

Lemma Map_has_In (m : JsMap V) (k : string) :
  Map_has m k = true <-> In k (map fst m).
Proof.
  unfold Map_has. induction m as [|[k0 v0] m IH]; simpl.
  - split; [discriminate | intros []].
  - destruct (String.eqb_spec k0 k) as [-> | Hk].
    + split; auto.
    + rewrite IH. split; [auto | intros [? | ?]; congruence].
Qed.

Lemma Map_set_keys (m : JsMap V) (k : string) (v : V) :
  map fst (Map_set k v m)
  = if Map_has m k then map fst m else map fst m ++ [k].
Proof.
  unfold Map_has. induction m as [|[k0 v0] m IH]; simpl.
  - reflexivity.
  - destruct (String.eqb_spec k0 k) as [-> | Hk]; simpl; [reflexivity |].
    rewrite IH. destruct (Map_get m k); reflexivity.
Qed.

Lemma Map_set_values (m : JsMap V) (k : string) (v x : V) :
  In x (Map_values (Map_set k v m)) -> x = v \/ In x (Map_values m).
Proof.
  unfold Map_values. induction m as [|[k0 v0] m IH]; simpl.
  - intros [<- | []]. now left.
  - destruct (String.eqb k0 k); simpl.
    + intros [<- | H]; auto.
    + intros [<- | H]; auto. destruct (IH H); auto.
Qed.

Lemma Map_set_NoDup (m : JsMap V) (k : string) (v : V) :
  NoDup (map fst m) -> NoDup (map fst (Map_set k v m)).
Proof.
  intros H. rewrite Map_set_keys. destruct (Map_has m k) eqn:E; [exact H |].
  apply NoDup_app; [exact H | repeat constructor; intros [] |].
  intros a Ha [<- | []]. apply Map_has_In in Ha. congruence.
Qed.

(** Writing a sequence of elements into a map, as the [forEach] loops of
    the two tables do. *)
Variables (E : Type) (key : E -> string) (val : E -> V).

Lemma setAll_snoc (l : list E) (e : E) (m : JsMap V) :
  setAll key val (l ++ [e]) m = Map_set (key e) (val e) (setAll key val l m).
Proof. unfold setAll. now rewrite fold_left_app. Qed.

(** The last write to a key is the one that is read back. *)
Lemma setAll_get (l : list E) (m : JsMap V) (k : string) :
  Map_get (setAll key val l m) k
  = match find (fun e => String.eqb (key e) k) (rev l) with
    | Some e => Some (val e)
    | None => Map_get m k
    end.
Proof.
  induction l as [|e l IH] using rev_ind; [reflexivity |].
  rewrite setAll_snoc, Map_get_set, rev_app_distr. simpl.
  destruct (String.eqb (key e) k); [reflexivity | exact IH].
Qed.

Lemma setAll_keys_In (l : list E) (m : JsMap V) (k : string) :
  In k (map fst (setAll key val l m)) <-> In k (map fst m) \/ In k (map key l).
Proof.
  revert k. induction l as [|e l IH] using rev_ind; intros k.
  - simpl. tauto.
  - rewrite setAll_snoc, Map_set_keys, map_app, in_app_iff. simpl.
    destruct (Map_has (setAll key val l m) (key e)) eqn:Eh.
    + rewrite IH. apply Map_has_In, IH in Eh.
      split; [tauto |]. intros [H | [H | [<- | []]]]; auto.
    + rewrite in_app_iff, IH. simpl. tauto.
Qed.

Lemma setAll_NoDup (l : list E) (m : JsMap V) :
  NoDup (map fst m) -> NoDup (map fst (setAll key val l m)).
Proof.
  intros H. induction l as [|e l IH] using rev_ind; [exact H |].
  rewrite setAll_snoc. now apply Map_set_NoDup.
Qed.

Lemma setAll_values (l : list E) (m : JsMap V) (x : V) :
  In x (Map_values (setAll key val l m)) ->
  In x (Map_values m) \/ exists e, In e l /\ x = val e.
Proof.
  induction l as [|e l IH] using rev_ind; [auto |].
  rewrite setAll_snoc. intros H.
  destruct (Map_set_values _ _ _ _ H) as [-> | H'].
  - right. exists e. split; [apply in_app_iff; simpl; auto | reflexivity].
  - destruct (IH H') as [? | (e' & He' & ->)]; [auto |].
    right. exists e'. split; [apply in_app_iff; auto | reflexivity].
Qed.

(** Every binding written from the elements maps the key of an element to
    its value. *)
Lemma setAll_bindings (l : list E) (m : JsMap V) (kv : string * V) :
  In kv (setAll key val l m) -> In kv m \/ exists e, In e l /\ kv = (key e, val e).
Proof.
  assert (Hset : forall (m0 : JsMap V) k v,
             In kv (Map_set k v m0) -> kv = (k, v) \/ In kv m0).
  { induction m0 as [|[k0 v0] m0 IH0]; simpl; intros k v.
    - intros [<- | []]. now left.
    - destruct (String.eqb k0 k); simpl.
      + intros [<- | H]; auto.
      + intros [<- | H]; auto. destruct (IH0 _ _ H); auto. }
  induction l as [|e l IH] using rev_ind; [auto |].
  rewrite setAll_snoc. intros H.
  destruct (Hset _ _ _ H) as [-> | H'].
  - right. exists e. split; [apply in_app_iff; simpl; auto | reflexivity].
  - destruct (IH H') as [? | (e' & He' & ->)]; [auto |].
    right. exists e'. split; [apply in_app_iff; auto | reflexivity].
Qed.

End MapFacts.

Lemma find_skip {A} (f : A -> bool) (skipped rest : list A) :
  find f skipped = None -> find f (skipped ++ rest) = find f rest.
Proof.
  induction skipped as [|x skipped IH]; simpl; [reflexivity |].
  destruct (f x); [discriminate | exact IH].
Qed.

Lemma find_hit {A} (f : A -> bool) (front rest : list A) (x : A) :
  find f front = Some x -> find f (front ++ rest) = Some x.
Proof.
  induction front as [|y front IH]; simpl; [discriminate |].
  destruct (f y); [auto | exact IH].
Qed.

Lemma find_unique {A} (f : A -> bool) (l : list A) (x : A) :
  In x l -> f x = true -> (forall y, In y l -> f y = true -> y = x) ->
  find f l = Some x.
Proof.
  intros Hin Hx Hu. destruct (find f l) as [y|] eqn:E.
  - apply find_some in E. destruct E as [Hy Hfy]. f_equal. auto.
  - rewrite (find_none _ _ E x Hin) in Hx. discriminate.
Qed.

Lemma find_absent {A} (f : A -> bool) (l : list A) :
  (forall y, In y l -> f y = false) -> find f l = None.
Proof.
  intros H. destruct (find f l) as [y|] eqn:E; [| reflexivity].
  apply find_some in E. destruct E as [Hy Hfy]. rewrite (H y Hy) in Hfy.
  discriminate.
Qed.

(** ** [getEmojis] *)

Lemma emoticon_test (i : Image) :
  (n <- indexOf (usage_ i) "emoticon" ;; Ok (negb (Z.eqb n (-1)))) = Ok true
  <-> emoticon i = true.
Proof.
  unfold emoticon. destruct (indexOf (usage_ i) "emoticon"); simpl.
  - split; congruence.
  - split; discriminate.
Qed.

Lemma getEmojis_In (pack : ImagePack) (l : list Image) (i : Image) :
  getEmojis pack = Ok l -> (In i l <-> In i (images pack) /\ emoticon i = true).
Proof.
  intros H. unfold getEmojis in H. rewrite (filterM_In _ _ i H).
  now rewrite emoticon_test.
Qed.

(** On an array of tags the test is membership of the tag. *)
Lemma emoticon_tags (i : Image) (tags : list JsVal) :
  usage_ i = JArr tags -> (emoticon i = true <-> In (JStr "emoticon") tags).
Proof.
  intros Hu. unfold emoticon. rewrite Hu. simpl.
  rewrite negb_true_iff, Z.eqb_neq, Array_indexOf_present. split.
  - intros (y & Hy & E). destruct y; simpl in E; try discriminate.
    apply String.eqb_eq in E. now subst.
  - intros H. exists (JStr "emoticon"). split; [exact H | reflexivity].
Qed.

(** ** [getShortcodeToEmoji] *)

Lemma getShortcodeToEmoji_Ok_inv (emojis : list StdEmoji) (mx : Client) (room : Room) m :
  getShortcodeToEmoji emojis mx room = Ok m ->
  exists packs custom,
    getRelevantPacks mx room = Ok packs /\
    flatMapM getEmojis (rev packs) = Ok custom /\
    m = setAll shortcode Custom custom (fold_left setStandard emojis []).
Proof.
  unfold getShortcodeToEmoji, customEmoji. intros H.
  inv_bind H. inv_bind E. injection H as <-.
  exists a0, a. auto.
Qed.

(** Among the emoji collected from the reversed pack list, the last one
    under a shortcode is the one of the first pack, in priority order, that
    defines the shortcode as an emoji. *)
Lemma overlay_priority
    (before after : list ImagePack) (P : ImagePack) (custom : list Image) (e : Image) :
  flatMapM getEmojis (rev (before ++ P :: after)) = Ok custom ->
  In e (images P) -> emoticon e = true ->
  NoDup (map shortcode (images P)) ->
  (forall q e', In q before -> In e' (images q) -> emoticon e' = true ->
                shortcode e' <> shortcode e) ->
  find (fun i => String.eqb (shortcode i) (shortcode e)) (rev custom) = Some e.
Proof.
  intros Hc He Hem Hnd Hbefore.
  rewrite rev_app_distr in Hc. simpl in Hc.
  apply flatMapM_app_inv in Hc. destruct Hc as (c1 & cb & Hc1 & Hcb & ->).
  apply flatMapM_app_inv in Hc1. destruct Hc1 as (ca & cp & Hca & Hcp & ->).
  simpl in Hcp. inv_bind Hcp. injection Hcp as <-. rewrite app_nil_r.
  rewrite !rev_app_distr.
  rewrite find_skip.
  2:{ apply find_absent. intros y Hy. rewrite <- in_rev in Hy.
      apply (flatMapM_In _ _ y Hcb) in Hy. destruct Hy as (q & qe & Hq & Hqe & Hy).
      rewrite <- in_rev in Hq. apply (getEmojis_In _ y Hqe) in Hy. destruct Hy as [Hy Ey].
      apply String.eqb_neq. eapply Hbefore; eauto. }
  apply find_hit.
  apply (@find_unique _ _ _ e); [| apply String.eqb_refl |].
  - rewrite <- in_rev. apply (getEmojis_In _ e E). auto.
  - intros y Hy Ey. rewrite <- in_rev in Hy.
    apply (getEmojis_In _ y E) in Hy. destruct Hy as [Hy _].
    apply String.eqb_eq in Ey. clear - Hnd He Hy Ey.
    induction (images P) as [|x l IH]; [destruct He |].
    simpl in Hnd. apply NoDup_cons_iff in Hnd. destruct Hnd as [Hx Hl].
    destruct He as [<- | He], Hy as [<- | Hy]; auto.
    + exfalso. apply Hx. rewrite <- Ey. now apply in_map.
    + exfalso. apply Hx. rewrite Ey. now apply in_map.
Qed.

(** The pack that comes first among the relevant packs that define a
    shortcode as an emoji supplies the entry of the table, over the standard
    emoji and over the packs behind it. *)
Lemma getShortcodeToEmoji_first_pack_wins
    (emojis : list StdEmoji) (mx : Client) (room : Room)
    (before after : list ImagePack) (P : ImagePack) (e : Image) (m : JsMap Emoji) :
  getRelevantPacks mx room = Ok (before ++ P :: after) ->
  In e (images P) -> emoticon e = true ->
  NoDup (map shortcode (images P)) ->
  (forall q e', In q before -> In e' (images q) -> emoticon e' = true ->
                shortcode e' <> shortcode e) ->
  getShortcodeToEmoji emojis mx room = Ok m ->
  Map_get m (shortcode e) = Some (Custom e).
Proof.
  intros Hp He Hem Hnd Hbefore Hm.
  destruct (getShortcodeToEmoji_Ok_inv _ _ _ Hm) as (packs & custom & Hp' & Hc & ->).
  rewrite Hp in Hp'. injection Hp' as <-.
  rewrite setAll_get.
  now rewrite (@overlay_priority _ _ _ _ _ Hc He Hem Hnd Hbefore).
Qed.

Lemma dedupPacks_head (p : ImagePack) (l : list ImagePack) :
  dedupPacks (p :: l) = p :: dedupFirst [packId p] l.
Proof. rewrite dedupPacks_spec. reflexivity. Qed.

(** C1.  When the personal pack defines a shortcode as an emoji,
    [getShortcodeToEmoji] maps the shortcode to the definition of the
    personal pack, whatever the standard table, the packs of the room and
    the enabled pack rooms define under it. *)
Theorem getShortcodeToEmoji_personal_pack_wins
    (emojis : list StdEmoji) (mx : Client) (room : Room)
    (P : ImagePack) (e : Image) (m : JsMap Emoji) :
  getUserImagePack mx = Ok (Some P) ->
  In e (images P) -> emoticon e = true ->
  NoDup (map shortcode (images P)) ->
  getShortcodeToEmoji emojis mx room = Ok m ->
  Map_get m (shortcode e) = Some (Custom e).
Proof.
  intros Hu He Hem Hnd Hm.
  destruct (getShortcodeToEmoji_Ok_inv _ _ _ Hm) as (packs & custom & Hp & _ & _).
  unfold getRelevantPacks in Hp. rewrite Hu in Hp. simpl in Hp.
  inv_bind Hp. inv_bind Hp. injection Hp as Hp.
  change (optList (Some P) ++ a ++ a0) with (P :: a ++ a0) in Hp.
  rewrite dedupPacks_head in Hp.
  apply (@getShortcodeToEmoji_first_pack_wins emojis mx room []
           (dedupFirst [packId P] (a ++ a0)) P e m);
    try assumption.
  - unfold getRelevantPacks. rewrite Hu, E, E0. simpl.
    change (optList (Some P) ++ a ++ a0) with (P :: a ++ a0).
    now rewrite dedupPacks_head.
  - intros q e' [].
Qed.

Lemma getShortcodeToEmoji_personal_pack_wins_witness :
  exists m,
    getShortcodeToEmoji Sample.emojis Sample.mx Sample.here = Ok m /\
    Map_get m "x"
    = Some (Custom (mkImage "x" (JStr "mxc://s/personal-x") (JStr "x") JUndefined
                            default_usage)).
Proof.
  assert (Hu : getUserImagePack Sample.mx = Ok (Some _))
    by (vm_compute; reflexivity).
  assert (Hm : getShortcodeToEmoji Sample.emojis Sample.mx Sample.here = Ok _)
    by (vm_compute; reflexivity).
  eexists. split; [exact Hm |].
  apply (@getShortcodeToEmoji_personal_pack_wins
           Sample.emojis Sample.mx Sample.here _
           (mkImage "x" (JStr "mxc://s/personal-x") (JStr "x") JUndefined
                    default_usage) _ Hu).
  - simpl. auto.
  - reflexivity.
  - simpl. repeat constructor; simpl; intuition discriminate.
  - exact Hm.
Defined.

(** The three sources of the sample all define [x] as an emoji, and the
    relevant packs come in the order personal, room, pack room. *)
Example priority_scenario :
  exists P R E,
    getRelevantPacks Sample.mx Sample.here = Ok [P; R; E] /\
    getUserImagePack Sample.mx = Ok (Some P) /\
    getPacksInRoom Sample.here = Ok [R] /\
    getFromImagePackRooms Sample.mx = Ok [E] /\
    Forall (fun pack =>
              exists e, In e (images pack) /\ emoticon e = true /\ shortcode e = "x")
           [P; R; E].
Proof.
  do 3 eexists. repeat split; try (vm_compute; reflexivity).
  repeat constructor; eexists; (split; [simpl; left; reflexivity |]);
    split; reflexivity.
Qed.

Lemma setStandard_values (emojis : list StdEmoji) (m : JsMap Emoji) (v : Emoji) :
  In v (Map_values (fold_left setStandard emojis m)) ->
  In v (Map_values m) \/ exists s, v = Standard s.
Proof.
  revert m. induction emojis as [|emoji emojis IH]; intros m; simpl; [auto |].
  intros H. destruct (IH _ H) as [H' | H']; [| auto].
  unfold setStandard in H'. destruct (shortcodes emoji) as [s | l].
  - destruct (Map_set_values _ _ _ _ H') as [-> | ?]; eauto.
  - change (fold_left (fun m sc => Map_set sc (Standard emoji) m) l m)
      with (setAll (fun sc : string => sc) (fun _ => Standard emoji) l m) in H'.
    destruct (setAll_values _ _ _ _ _ H') as [? | (e & _ & ->)]; eauto.
Qed.

Lemma customEmoji_In (mx : Client) (room : Room) (custom : list Image) (i : Image) :
  customEmoji mx room = Ok custom -> In i custom ->
  exists packs pack,
    getRelevantPacks mx room = Ok packs /\ In pack packs /\
    In i (images pack) /\ emoticon i = true.
Proof.
  unfold customEmoji. intros H Hi. inv_bind H.
  apply (flatMapM_In _ _ i H) in Hi. destruct Hi as (q & qe & Hq & Hqe & Hi).
  rewrite <- in_rev in Hq. apply (getEmojis_In _ i Hqe) in Hi.
  exists a, q. tauto.
Qed.

Lemma getEmojiForCompletion_Ok_inv
    (emojis : list StdEmoji) (mx : Client) (room : Room) (l : list Emoji) :
  getEmojiForCompletion emojis mx room = Ok l ->
  exists custom,
    customEmoji mx room = Ok custom /\
    l = map Standard
          (filter (fun e =>
                     negb (Map_has (setAll shortcode (fun i => i) custom [])
                                   (std_shortcode e)))
                  emojis)
        ++ map Custom (Map_values (setAll shortcode (fun i => i) custom [])).
Proof.
  unfold getEmojiForCompletion. intros H. inv_bind H. injection H as <-.
  exists a. auto.
Qed.

(** C10.  An image that fails the emoticon test, such as a sticker-only
    image, is a value neither of the table of [getShortcodeToEmoji] nor of
    the list of [getEmojiForCompletion]. *)
Theorem tables_hold_emoticons_only
    (emojis : list StdEmoji) (mx : Client) (room : Room) (i : Image) :
  emoticon i = false ->
  (forall m, getShortcodeToEmoji emojis mx room = Ok m ->
             ~ In (Custom i) (Map_values m)) /\
  (forall l, getEmojiForCompletion emojis mx room = Ok l -> ~ In (Custom i) l).
Proof.
  intros Hi. split.
  - intros m Hm Hin. unfold getShortcodeToEmoji in Hm. inv_bind Hm.
    injection Hm as <-.
    change (In (Custom i)
              (Map_values (setAll shortcode Custom a
                                  (fold_left setStandard emojis [])))) in Hin.
    destruct (setAll_values _ _ _ _ _ Hin) as [Hs | (e & He & Heq)].
    + destruct (setStandard_values _ _ _ Hs) as [[] | (s & Hs')]. discriminate.
    + injection Heq as <-.
      destruct (customEmoji_In _ _ i E He) as (_ & _ & _ & _ & _ & Hem).
      congruence.
  - intros l Hl Hin.
    destruct (getEmojiForCompletion_Ok_inv _ _ _ Hl) as (custom & Hc & ->).
    apply in_app_iff in Hin. destruct Hin as [Hin | Hin].
    + apply in_map_iff in Hin. destruct Hin as (s & Hs & _). discriminate.
    + apply in_map_iff in Hin. destruct Hin as (i' & Hi' & Hin).
      injection Hi' as ->.
      destruct (setAll_values _ _ _ _ _ Hin) as [[] | (e & He & ->)].
      destruct (customEmoji_In _ _ e Hc He) as (_ & _ & _ & _ & _ & Hem).
      congruence.
Qed.

Lemma tables_hold_emoticons_only_witness :
  exists P m l,
    getUserImagePack Sample.mx = Ok (Some P) /\
    In (mkImage "wave" (JStr "mxc://s/wave") (JStr "wave") JUndefined
                (JArr [JStr "sticker"]))
       (images P) /\
    getShortcodeToEmoji Sample.emojis Sample.mx Sample.here = Ok m /\
    ~ In (Custom (mkImage "wave" (JStr "mxc://s/wave") (JStr "wave") JUndefined
                          (JArr [JStr "sticker"])))
         (Map_values m) /\
    getEmojiForCompletion Sample.emojis Sample.mx Sample.here = Ok l /\
    ~ In (Custom (mkImage "wave" (JStr "mxc://s/wave") (JStr "wave") JUndefined
                          (JArr [JStr "sticker"])))
         l.
Proof.
  assert (Hu : getUserImagePack Sample.mx = Ok (Some _))
    by (vm_compute; reflexivity).
  assert (Hm : getShortcodeToEmoji Sample.emojis Sample.mx Sample.here = Ok _)
    by (vm_compute; reflexivity).
  assert (Hl : getEmojiForCompletion Sample.emojis Sample.mx Sample.here = Ok _)
    by (vm_compute; reflexivity).
  destruct (@tables_hold_emoticons_only Sample.emojis Sample.mx Sample.here
              (mkImage "wave" (JStr "mxc://s/wave") (JStr "wave") JUndefined
                       (JArr [JStr "sticker"]))
              eq_refl) as [H1 H2].
  do 3 eexists. split; [exact Hu |]. split; [simpl; auto |].
  split; [exact Hm |]. split; [exact (H1 _ Hm) |].
  split; [exact Hl | exact (H2 _ Hl)].
Defined.

(** ** [getEmojiForCompletion] *)

Lemma has_shadowed (custom : list Image) (e : StdEmoji) :
  Map_has (setAll shortcode (fun i => i) custom []) (std_shortcode e)
  = shadowed custom e.
Proof.
  unfold shadowed.
  destruct (existsb (fun i => String.eqb (shortcode i) (std_shortcode e)) custom) eqn:E.
  - apply Map_has_In, setAll_keys_In. right.
    apply existsb_exists in E. destruct E as (i & Hi & Ei).
    apply String.eqb_eq in Ei. rewrite <- Ei. now apply in_map.
  - destruct (Map_has _ _) eqn:Eh; [| reflexivity].
    apply Map_has_In, setAll_keys_In in Eh. destruct Eh as [[] | Eh].
    apply in_map_iff in Eh. destruct Eh as (i & Ei & Hi).
    assert (existsb (fun i => String.eqb (shortcode i) (std_shortcode e)) custom = true).
    { apply existsb_exists. exists i. split; [exact Hi |]. now apply String.eqb_eq. }
    congruence.
Qed.

(** The keys of the custom table are the shortcodes of its values. *)
Lemma custom_table_keys (custom : list Image) :
  map shortcode (Map_values (setAll shortcode (fun i => i) custom []))
  = map fst (setAll shortcode (fun i => i) custom []).
Proof.
  assert (H : forall kv, In kv (setAll shortcode (fun i : Image => i) custom []) ->
                         shortcode (snd kv) = fst kv).
  { intros kv Hkv. destruct (setAll_bindings _ _ _ _ _ Hkv) as [[] | (e & _ & ->)].
    reflexivity. }
  unfold Map_values. rewrite map_map.
  induction (setAll shortcode (fun i : Image => i) custom []) as [|kv m IH];
    [reflexivity |].
  simpl. rewrite (H kv (or_introl eq_refl)). f_equal. apply IH.
  intros kv' Hkv'. apply H. now right.
Qed.

(** The custom table holds one entry per distinct custom shortcode. *)
Lemma custom_table_length (custom : list Image) :
  List.length (setAll shortcode (fun i => i) custom [])
  = List.length (nodup string_dec (map shortcode custom)).
Proof.
  rewrite <- (length_map fst).
  apply Nat.le_antisymm; apply NoDup_incl_length.
  - apply setAll_NoDup. constructor.
  - intros k Hk. apply nodup_In. apply setAll_keys_In in Hk.
    destruct Hk as [[] | Hk]. exact Hk.
  - apply NoDup_nodup.
  - intros k Hk. apply nodup_In in Hk. apply setAll_keys_In. now right.
Qed.

(** Dropping standard emoji keeps their shortcodes distinct. *)
Lemma kept_shortcodes_NoDup (keep : StdEmoji -> bool) (emojis : list StdEmoji) :
  NoDup (map std_shortcode emojis) ->
  NoDup (map std_shortcode (filter keep emojis)).
Proof.
  induction emojis as [|e emojis IH]; simpl; [auto |].
  intros H. apply NoDup_cons_iff in H. destruct H as [He Hl].
  destruct (keep e); simpl; [| auto].
  constructor; [| auto].
  intros Hin. apply He. apply in_map_iff in Hin. destruct Hin as (y & Hy & Hin).
  apply filter_In in Hin. rewrite <- Hy. apply in_map. tauto.
Qed.

(** C2.  The completion list holds the standard emoji that no custom emoji
    shadows, then one custom emoji per distinct custom shortcode: its length
    is the number of standard emoji less the shadowed ones plus the number
    of distinct custom shortcodes, every standard emoji stands before every
    custom emoji, and every shortcode of the standard table or of a custom
    emoji appears, once when the standard table names each emoji once. *)
Theorem getEmojiForCompletion_shape
    (emojis : list StdEmoji) (mx : Client) (room : Room) (custom : list Image) :
  customEmoji mx room = Ok custom ->
  exists result,
    getEmojiForCompletion emojis mx room = Ok result /\
    List.length result
    = (List.length emojis - List.length (filter (shadowed custom) emojis))
      + List.length (nodup string_dec (map shortcode custom)) /\
    (forall i j s c,
        nth_error result i = Some (Standard s) ->
        nth_error result j = Some (Custom c) -> i < j) /\
    (forall k,
        In k (map emoji_shortcode result) <->
        In k (map std_shortcode emojis) \/ In k (map shortcode custom)) /\
    (NoDup (map std_shortcode emojis) -> NoDup (map emoji_shortcode result)).
Proof.
  intros Hc.
  set (allEmoji := setAll shortcode (fun i : Image => i) custom []).
  set (kept := filter (fun e => negb (Map_has allEmoji (std_shortcode e))) emojis).
  exists (map Standard kept ++ map Custom (Map_values allEmoji)).
  assert (Hkept : kept = filter (fun e => negb (shadowed custom e)) emojis).
  { apply filter_ext. intros e. unfold allEmoji. now rewrite has_shadowed. }
  assert (Hcodes : map emoji_shortcode
                     (map Standard kept ++ map Custom (Map_values allEmoji))
                   = map std_shortcode kept ++ map fst allEmoji).
  { rewrite map_app, !map_map. simpl. f_equal.
    rewrite <- (map_map (fun i : Image => i) shortcode).
    rewrite map_id. apply custom_table_keys. }
  split; [| split; [| split; [| split]]].
  - unfold getEmojiForCompletion. rewrite Hc. reflexivity.
  - rewrite length_app, !length_map. f_equal.
    + rewrite Hkept.
      pose proof (filter_length (shadowed custom) emojis). lia.
    + unfold Map_values. rewrite length_map. apply custom_table_length.
  - intros i j s c Hi Hj.
    destruct (Nat.lt_ge_cases i (List.length (map Standard kept))) as [Hlt | Hge].
    + destruct (Nat.lt_ge_cases j (List.length (map Standard kept))) as [Hjlt | Hjge];
        [| lia].
      rewrite nth_error_app1 in Hj by exact Hjlt.
      apply nth_error_In, in_map_iff in Hj. destruct Hj as (? & ? & _).
      discriminate.
    + rewrite nth_error_app2 in Hi by exact Hge.
      apply nth_error_In, in_map_iff in Hi. destruct Hi as (? & ? & _).
      discriminate.
  - intros k. rewrite Hcodes, in_app_iff. unfold allEmoji at 1.
    rewrite setAll_keys_In. simpl. split.
    + intros [H | [[] | H]]; [| auto].
      left. apply in_map_iff in H. destruct H as (e & <- & He).
      apply in_map. unfold kept in He. apply filter_In in He. tauto.
    + intros [H | H]; [| auto].
      apply in_map_iff in H. destruct H as (e & <- & He).
      destruct (Map_has allEmoji (std_shortcode e)) eqn:Eh.
      * right. apply Map_has_In in Eh. unfold allEmoji in Eh.
        apply setAll_keys_In in Eh. destruct Eh as [[] | Eh]. auto.
      * left. apply in_map. apply filter_In. rewrite Eh. auto.
  - intros Hnd. rewrite Hcodes. apply NoDup_app.
    + now apply kept_shortcodes_NoDup.
    + apply setAll_NoDup. constructor.
    + intros k Hk Hk'. apply in_map_iff in Hk. destruct Hk as (e & <- & He).
      apply filter_In in He. destruct He as [_ He].
      apply Map_has_In in Hk'. rewrite Hk' in He. discriminate.
Qed.

Lemma getEmojiForCompletion_shape_witness :
  exists custom result,
    customEmoji Sample.mx Sample.here = Ok custom /\
    List.length custom = 5 /\
    getEmojiForCompletion Sample.emojis Sample.mx Sample.here = Ok result /\
    List.length result
    = (List.length Sample.emojis
       - List.length (filter (shadowed custom) Sample.emojis))
      + List.length (nodup string_dec (map shortcode custom)) /\
    (forall i j s c,
        nth_error result i = Some (Standard s) ->
        nth_error result j = Some (Custom c) -> i < j) /\
    (forall k,
        In k (map emoji_shortcode result) <->
        In k (map std_shortcode Sample.emojis) \/ In k (map shortcode custom)) /\
    (NoDup (map std_shortcode Sample.emojis) -> NoDup (map emoji_shortcode result)).
Proof.
  assert (Hc : customEmoji Sample.mx Sample.here = Ok _)
    by (vm_compute; reflexivity).
  destruct (@getEmojiForCompletion_shape Sample.emojis Sample.mx Sample.here _ Hc)
    as (result & H).
  do 2 eexists. split; [exact Hc |]. split; [reflexivity | exact H].
Defined.

(** On the sample, two of the three standard emoji are shadowed and three
    distinct custom shortcodes remain. *)
Example getEmojiForCompletion_sample :
  exists result,
    getEmojiForCompletion Sample.emojis Sample.mx Sample.here = Ok result /\
    map emoji_shortcode result = ["grinning"; "x"; "smile"; "y"].
Proof. eexists. split; vm_compute; reflexivity. Qed.

(** ** Malformed events *)

Lemma mapM_returns_inv {A B} (f : A -> Completion B) (l : list A) :
  returns (mapM f l) -> forall x, In x l -> returns (f x).
Proof.
  induction l as [|y l IH]; simpl; intros [r H] x Hx; [destruct Hx |].
  inv_bind H. inv_bind H. destruct Hx as [<- | Hx].
  - now exists a.
  - apply IH; [now exists a0 | exact Hx].
Qed.

(** [getPacksInRoom] returns exactly when every pack event of the room is
    tolerated by [parsePack]. *)
Lemma getPacksInRoom_returns_iff (room : Room) :
  returns (getPacksInRoom room) <->
  forall ev, In ev (getStateEvents room "im.ponies.room_emotes") ->
             tolerated ev = true.
Proof.
  unfold getPacksInRoom. split.
  - intros [r H] ev Hev. inv_bind H.
    apply (parsePack_returns_iff ev (Some room)).
    apply (mapM_returns_inv (fun p => parsePack p (Some room))
                            (getStateEvents room "im.ponies.room_emotes"));
      [now exists a | exact Hev].
  - intros H.
    destruct (mapM_returns (fun p => parsePack p (Some room))
                (getStateEvents room "im.ponies.room_emotes")) as [r Hr].
    + intros ev Hev. apply parsePack_returns_iff. auto.
    + rewrite Hr. apply returns_Ok.
Qed.

(** [getUserImagePack] returns exactly when the personal pack event, if
    there is one, is tolerated by [parsePack]. *)
Lemma getUserImagePack_returns_iff (mx : Client) :
  returns (getUserImagePack mx) <->
  forall ev, getAccountData mx "im.ponies.user_emotes" = Some ev ->
             tolerated ev = true.
Proof.
  unfold getUserImagePack.
  destruct (getAccountData mx "im.ponies.user_emotes") as [ev|].
  - split.
    + intros [r H] ev' Hev'. injection Hev' as <-. inv_bind H.
      apply (parsePack_returns_iff ev None). now exists a.
    + intros H. destruct (proj2 (parsePack_returns_iff ev None) (H ev eq_refl))
        as [r ->].
      apply returns_Ok.
  - split; [discriminate | intros _; apply returns_Ok].
Qed.

(** [getEmojis] returns exactly when the usage of every image is an array
    or a string. *)
Lemma getEmojis_returns_iff (pack : ImagePack) :
  returns (getEmojis pack) <->
  forall i, In i (images pack) ->
            exists n, indexOf (usage_ i) "emoticon" = Ok n.
Proof.
  unfold getEmojis. induction (images pack) as [|x l IH]; simpl.
  - split; [intros _ ? [] | intros _; apply returns_Ok].
  - split.
    + intros [r H] i Hi. inv_bind H. inv_bind H. inv_bind E.
      destruct Hi as [<- | Hi]; [now exists a1 |].
      apply (proj1 IH); [now exists a0 | exact Hi].
    + intros H. destruct (H x (or_introl eq_refl)) as [n ->]. simpl.
      destruct (proj2 IH) as [r ->]; [intros; apply H; auto |].
      apply returns_Ok.
Qed.

(** C4.  The resolver does throw on malformed events: [images: null], a
    [null] entry of the images mapping and a [null] entry of the
    [emote_rooms] mapping each raise a [TypeError], in [parsePack] and in
    every operation that reaches it. *)
Theorem malformed_events_throw :
  parsePack Sample.nullImagesEvent None = Throw TypeError /\
  parsePack Sample.nullEntryEvent (Some Sample.brokenRoom) = Throw TypeError /\
  getUserImagePack Sample.careless = Throw TypeError /\
  getPacksInRoom Sample.brokenRoom = Throw TypeError /\
  getFromImagePackRooms Sample.careless = Throw TypeError /\
  getRelevantPacks Sample.mx Sample.brokenRoom = Throw TypeError /\
  getShortcodeToEmoji Sample.emojis Sample.mx Sample.brokenRoom = Throw TypeError /\
  getEmojiForCompletion Sample.emojis Sample.mx Sample.brokenRoom = Throw TypeError.
Proof. repeat split; vm_compute; reflexivity. Qed.

(** C7.  An entry of the images mapping that is [null] lacks a media
    reference, yet it is not left out: [parsePack] throws at [data.url], for
    any fallback room, and the sibling entry that has a media reference is
    not retained in any pack.  With an empty object in place of [null] the
    entry is left out and the sibling is kept, as the claim says. *)
Theorem null_entry_loses_siblings (room : option Room) :
  get (content Scenario.nullSiblingEvent) "images"
  = Ok (JObj [("x", JNull); ("y", Sample.img "mxc://s/y")]) /\
  hasMedia JNull = false /\
  hasMedia (Sample.img "mxc://s/y") = true /\
  parsePack Scenario.nullSiblingEvent room = Throw TypeError /\
  exists p,
    parsePack Scenario.emptySiblingEvent room = Ok (Some p) /\
    images p
    = [mkImage "y" (JStr "mxc://s/y") (JStr "y") JUndefined default_usage].
Proof.
  repeat split; try reflexivity.
  eexists. split; reflexivity.
Qed.

(** ** Well-shaped events *)

Lemma parsePack_usage_inv (rawPack : RawEvent) (room : option Room) (p : ImagePack) :
  parsePack rawPack room = Ok (Some p) ->
  usage p
  = coalesce (read (coalesce (read (content rawPack) "pack") (JObj [])) "usage")
             default_usage.
Proof.
  unfold parsePack. intros H. inv_bind H.
  destruct (is_undefined a); [discriminate |].
  do 7 inv_bind H. injection H as <-. simpl.
  unfold read. now rewrite E0, E3.
Qed.

Lemma usable_coalesce (u v : JsVal) :
  usageDeclared u = true -> usable v = true -> usable (coalesce u v) = true.
Proof.
  unfold usageDeclared, coalesce. destruct (nullish u); simpl; auto.
Qed.

Lemma parsePack_emojiReady (rawPack : RawEvent) (room : option Room) (p : ImagePack) :
  wellShaped rawPack = true -> parsePack rawPack room = Ok (Some p) -> emojiReady p.
Proof.
  unfold wellShaped. rewrite !andb_true_iff. intros [[_ Hpu] Hes] Hp i Hi.
  pose proof (parsePack_usage_inv _ _ Hp) as Hu.
  destruct (parsePack_Some_inv _ _ Hp) as (imgs & entries & Himgs & _ & He & Hf & _).
  unfold read in Hes at 1. rewrite Himgs, He in Hes.
  apply (flatMapM_In _ _ i Hf) in Hi. destruct Hi as ([sc data] & ys & Hx & Hy & Hi).
  destruct (parseImage_Ok_inv _ _ _ Hy) as (url & b & inf & us & _ & _ & _ & Hus & ->).
  destruct (truthy url); [| destruct Hi].
  destruct Hi as [<- | []]. simpl.
  rewrite forallb_forall in Hes. specialize (Hes _ Hx). simpl in Hes.
  unfold read in Hes. rewrite Hus in Hes.
  apply usable_coalesce; [exact Hes |].
  rewrite Hu. apply usable_coalesce; [exact Hpu | reflexivity].
Qed.

Lemma wellShaped_tolerated (rawPack : RawEvent) :
  wellShaped rawPack = true -> tolerated rawPack = true.
Proof. unfold wellShaped. rewrite !andb_true_iff. tauto. Qed.

Lemma mapM_In_inv {A B} (f : A -> Completion B) (l : list A) (r : list B) (y : B) :
  mapM f l = Ok r -> In y r -> exists x, In x l /\ f x = Ok y.
Proof.
  revert r. induction l as [|x l IH]; simpl; intros r H Hy.
  - injection H as <-. destruct Hy.
  - inv_bind H. inv_bind H. injection H as <-. destruct Hy as [<- | Hy].
    + exists x. auto.
    + destruct (IH _ E0 Hy) as (x' & Hx' & Hf). exists x'. auto.
Qed.

Lemma dropNull_In {A} (l : list (option A)) (x : A) :
  In x (dropNull l) <-> In (Some x) l.
Proof.
  induction l as [|[y|] l IH]; simpl.
  - tauto.
  - rewrite IH. split; intros [H | H]; auto; left; congruence.
  - rewrite IH. split; [auto | intros [H | H]; [discriminate | auto]].
Qed.

Lemma getPacksInRoom_ready (room : Room) :
  roomShaped room = true ->
  exists packs, getPacksInRoom room = Ok packs /\ Forall emojiReady packs.
Proof.
  unfold roomShaped. rewrite forallb_forall. intros Hs.
  destruct (proj2 (getPacksInRoom_returns_iff room)) as [packs Hp].
  { intros ev Hev. apply wellShaped_tolerated. auto. }
  exists packs. split; [exact Hp |].
  unfold getPacksInRoom in Hp. inv_bind Hp. injection Hp as <-.
  apply Forall_forall. intros p Hin. apply dropNull_In in Hin.
  destruct (mapM_In_inv _ _ _ E Hin) as (ev & Hev & Hparse).
  exact (parsePack_emojiReady _ _ (Hs _ Hev) Hparse).
Qed.

Lemma getUserImagePack_ready (mx : Client) :
  clientShaped mx ->
  exists user, getUserImagePack mx = Ok user /\ Forall emojiReady (optList user).
Proof.
  intros (Hu & _ & _).
  destruct (proj2 (getUserImagePack_returns_iff mx)) as [user Huser].
  { intros ev Hev. apply wellShaped_tolerated. auto. }
  exists user. split; [exact Huser |].
  unfold getUserImagePack in Huser.
  destruct (getAccountData mx "im.ponies.user_emotes") as [ev|].
  - inv_bind Huser. injection Huser as <-. destruct a as [p|]; simpl; constructor;
      [| constructor].
    exact (parsePack_emojiReady _ _ (Hu _ eq_refl) E).
  - injection Huser as <-. constructor.
Qed.

Lemma getFromImagePackRooms_ready (mx : Client) :
  clientShaped mx ->
  exists external,
    getFromImagePackRooms mx = Ok external /\ Forall emojiReady external.
Proof.
  intros (_ & Hrooms & Hemote).
  unfold getFromImagePackRooms.
  set (ev := match getAccountData mx "im.ponies.emote_rooms" with
             | Some ev => ev
             | None => mkRawEvent (JObj []) None None
             end).
  assert (Hc : nullish (content ev) = false).
  { unfold ev. destruct (getAccountData mx "im.ponies.emote_rooms") as [ev0|];
      [apply (Hemote ev0 eq_refl) | reflexivity]. }
  destruct (get_returns _ "rooms" Hc) as [r Hr]. rewrite Hr. simpl.
  assert (Hn : nullish (coalesce r (JObj [])) = false)
    by (apply nullish_coalesce; reflexivity).
  destruct (Object_entries_returns _ Hn) as [entries He]. rewrite He. simpl.
  assert (Hentries : forall e, In e entries -> nullish (snd e) = false).
  { unfold ev in He, Hr.
    destruct (getAccountData mx "im.ponies.emote_rooms") as [ev0|] eqn:Hacc.
    - apply (proj2 (Hemote ev0 eq_refl)). unfold read. now rewrite Hr.
    - simpl in Hr. injection Hr as <-. simpl in He. injection He as <-.
      intros e []. }
  assert (Heach : forall e, In e entries ->
            exists ys, packsOfEmoteRoom mx e = Ok ys /\ Forall emojiReady ys).
  { intros [rid ko] Hin. unfold packsOfEmoteRoom. simpl.
    destruct (Object_keys_returns ko (Hentries _ Hin)) as [keys ->]. simpl.
    destruct (getRoom mx rid) as [room|] eqn:Hroom.
    - destruct (getPacksInRoom_ready room (Hrooms _ _ Hroom)) as (packs & -> & Hready).
      simpl. eexists. split; [reflexivity |].
      apply Forall_forall. intros p Hp. apply filter_In in Hp.
      rewrite Forall_forall in Hready. apply Hready. tauto.
    - exists []. split; [reflexivity | constructor]. }
  destruct (flatMapM_returns (packsOfEmoteRoom mx) entries) as [external Hext].
  { intros e Hin. destruct (Heach e Hin) as (ys & -> & _). apply returns_Ok. }
  exists external. split; [exact Hext |].
  apply Forall_forall. intros p Hp.
  apply (flatMapM_In _ _ p Hext) in Hp. destruct Hp as (e & ys & Hin & Hys & Hp).
  destruct (Heach e Hin) as (ys' & Hys' & Hready).
  rewrite Hys in Hys'. injection Hys' as <-.
  rewrite Forall_forall in Hready. auto.
Qed.

Lemma getEmojis_ready (pack : ImagePack) :
  emojiReady pack -> returns (getEmojis pack).
Proof.
  intros H. apply getEmojis_returns_iff. intros i Hi.
  specialize (H i Hi). unfold indexOf.
  destruct (usage_ i); simpl in H; try discriminate; eauto.
Qed.

(** X21.  On well-shaped input no operation of the resolver throws: when
    the account data and the rooms of the client hold well-shaped pack
    events only and the [emote_rooms] mapping has no [null] entry, the three
    sources, their merge and both tables return. *)
Theorem resolver_returns
    (emojis : list StdEmoji) (mx : Client) (room : Room) :
  clientShaped mx -> roomShaped room = true ->
  returns (getUserImagePack mx) /\
  returns (getPacksInRoom room) /\
  returns (getFromImagePackRooms mx) /\
  returns (getRelevantPacks mx room) /\
  returns (getShortcodeToEmoji emojis mx room) /\
  returns (getEmojiForCompletion emojis mx room).
Proof.
  intros Hmx Hroom.
  destruct (@getUserImagePack_ready mx Hmx) as (user & Hu & Hur).
  destruct (@getPacksInRoom_ready room Hroom) as (inRoom & Hr & Hrr).
  destruct (@getFromImagePackRooms_ready mx Hmx) as (external & He & Her).
  assert (Hp : getRelevantPacks mx room
               = Ok (dedupPacks (optList user ++ inRoom ++ external))).
  { unfold getRelevantPacks. rewrite Hu, Hr, He. reflexivity. }
  assert (Hc : returns (customEmoji mx room)).
  { unfold customEmoji. rewrite Hp. simpl. apply flatMapM_returns.
    intros p Hin. rewrite <- in_rev in Hin. apply getEmojis_ready.
    rewrite dedupPacks_spec in Hin. unfold dedupByEventId in Hin.
    apply dedupFirst_In in Hin. destruct Hin as (l1 & l2 & Hsplit & _).
    assert (Hall : Forall emojiReady (optList user ++ inRoom ++ external))
      by (repeat (apply Forall_app; split); assumption).
    rewrite Forall_forall in Hall. apply Hall. rewrite Hsplit.
    apply in_app_iff. simpl. auto. }
  destruct Hc as [custom Hc].
  repeat split.
  - rewrite Hu. apply returns_Ok.
  - rewrite Hr. apply returns_Ok.
  - rewrite He. apply returns_Ok.
  - rewrite Hp. apply returns_Ok.
  - unfold getShortcodeToEmoji. rewrite Hc. apply returns_Ok.
  - unfold getEmojiForCompletion. rewrite Hc. apply returns_Ok.
Qed.

Lemma resolver_returns_witness :
  returns (getUserImagePack Sample.mx) /\
  returns (getPacksInRoom Sample.here) /\
  returns (getFromImagePackRooms Sample.mx) /\
  returns (getRelevantPacks Sample.mx Sample.here) /\
  returns (getShortcodeToEmoji Sample.emojis Sample.mx Sample.here) /\
  returns (getEmojiForCompletion Sample.emojis Sample.mx Sample.here).
Proof.
  assert (Hrooms : forall rid room,
             Sample.rooms rid = Some room -> roomShaped room = true).
  { intros rid room. unfold Sample.rooms.
    destruct (String.eqb rid "!r:x"); [intros H; injection H as <-; reflexivity |].
    destruct (String.eqb rid "!here:x"); [intros H; injection H as <-; reflexivity |].
    discriminate. }
  assert (Hmx : clientShaped Sample.mx).
  { split; [| split].
    - intros ev H. injection H as <-. reflexivity.
    - exact Hrooms.
    - intros ev H. injection H as <-. split; [reflexivity |].
      intros entries He. injection He as <-.
      intros e [<- | [<- | []]]; reflexivity. }
  apply (@resolver_returns Sample.emojis Sample.mx Sample.here Hmx eq_refl).
Defined.

(** * Further properties of the resolver *)

(** ** [parsePack]: defaults, fallbacks and failures *)

Lemma parsePack_fields_inv (rawPack : RawEvent) (room : option Room) (p : ImagePack) :
  parsePack rawPack room = Ok (Some p) ->
  displayName p
  = coalesce (packField rawPack "display_name")
             (match room with Some r => JStr (name r) | None => JUndefined end) /\
  avatar p
  = coalesce (packField rawPack "avatar_url")
             (match room with Some r => getMxcAvatarUrl r | None => JUndefined end) /\
  usage p = coalesce (packField rawPack "usage") default_usage /\
  attribution p = packField rawPack "attribution".
Proof.
  unfold parsePack, packField. intros H. inv_bind H.
  destruct (is_undefined a); [discriminate |].
  do 7 inv_bind H. injection H as <-. simpl.
  unfold read. rewrite E0, E1, E2, E3, E4. auto.
Qed.

Lemma parsePack_None_inv (rawPack : RawEvent) (room : option Room) :
  parsePack rawPack room = Ok None ->
  get (content rawPack) "images" = Ok JUndefined.
Proof.
  unfold parsePack. intros H. inv_bind H.
  destruct (is_undefined a) eqn:Hu.
  - destruct a; try discriminate Hu. exact E.
  - do 7 inv_bind H. discriminate.
Qed.

Lemma parseImage_filled (u : JsVal) (e : string * JsVal) (l : list Image) (i : Image) :
  parseImage u e = Ok l -> In i l -> nullish u = false ->
  shortcode i = fst e /\ truthy (mxc i) = true /\
  nullish (body i) = false /\ nullish (usage_ i) = false.
Proof.
  destruct e as [sc data]. intros H Hi Hu.
  destruct (parseImage_Ok_inv _ _ _ H) as (url & b & inf & us & _ & _ & _ & _ & ->).
  destruct (truthy url) eqn:Ht; [| destruct Hi].
  destruct Hi as [<- | []]. simpl. repeat split; auto.
  - apply nullish_coalesce. reflexivity.
  - now apply nullish_coalesce.
Qed.

(** X1.  A parsed pack has its defaults filled in: it points back to its
    source event, its usage is never [null] or [undefined], and each of its
    images has a truthy media reference, a body and a usage. *)
Theorem parsePack_fills_defaults
    (rawPack : RawEvent) (room : option Room) (p : ImagePack) :
  parsePack rawPack room = Ok (Some p) ->
  event p = rawPack /\
  nullish (usage p) = false /\
  forall i, In i (images p) ->
            truthy (mxc i) = true /\ nullish (body i) = false /\
            nullish (usage_ i) = false.
Proof.
  intros Hp.
  destruct (parsePack_Some_inv _ _ Hp) as (imgs & entries & _ & _ & _ & Hf & He).
  destruct (parsePack_fields_inv _ _ Hp) as (_ & _ & Hu & _).
  assert (Hn : nullish (usage p) = false)
    by (rewrite Hu; apply nullish_coalesce; reflexivity).
  repeat split; try assumption;
    apply (flatMapM_In _ _ i Hf) in H; destruct H as (e & ys & _ & Hy & Hi);
    destruct (parseImage_filled _ _ _ Hy Hi Hn) as (_ & ? & ? & ?); assumption.
Qed.

Lemma parsePack_fills_defaults_witness :
  exists p,
    parsePack Sample.roomEvent (Some Sample.here) = Ok (Some p) /\
    event p = Sample.roomEvent /\
    nullish (usage p) = false /\
    forall i, In i (images p) ->
              truthy (mxc i) = true /\ nullish (body i) = false /\
              nullish (usage_ i) = false.
Proof.
  assert (Hp : parsePack Sample.roomEvent (Some Sample.here) = Ok (Some _))
    by (vm_compute; reflexivity).
  eexists. split; [exact Hp |].
  exact (@parsePack_fills_defaults Sample.roomEvent (Some Sample.here) _ Hp).
Defined.

(** X2.  The fallback room decides nothing but the display name and the
    avatar: parsing one event with two fallback rooms throws, gives [null]
    or gives a pack alike, and two packs so obtained have the same images,
    usage, attribution and source event. *)
Theorem parsePack_room_independent (rawPack : RawEvent) (r1 r2 : option Room) :
  match parsePack rawPack r1, parsePack rawPack r2 with
  | Ok (Some p1), Ok (Some p2) =>
      images p1 = images p2 /\ usage p1 = usage p2 /\
      attribution p1 = attribution p2 /\ event p1 = event p2
  | Ok None, Ok None => True
  | Throw _, Throw _ => True
  | _, _ => False
  end.
Proof.
  unfold parsePack.
  destruct (get (content rawPack) "images") as [imgs|]; simpl; [| exact I].
  destruct (is_undefined imgs); [exact I |].
  destruct (get (content rawPack) "pack") as [pk|]; simpl; [| exact I].
  destruct (get_pack_default pk "display_name") as [dn ->].
  destruct (get_pack_default pk "avatar_url") as [av ->].
  destruct (get_pack_default pk "usage") as [us ->].
  destruct (get_pack_default pk "attribution") as [at' ->]. simpl.
  destruct (Object_entries imgs) as [entries|]; simpl; [| exact I].
  destruct (flatMapM (parseImage (coalesce us default_usage)) entries);
    simpl; auto.
Qed.

(** X3.  With a fallback room a parsed pack always has a display name: the
    one the pack declares, and the name of the room when it declares none;
    the avatar of the room stands in for a missing avatar likewise. *)
Theorem parsePack_room_fallback (rawPack : RawEvent) (room : Room) (p : ImagePack) :
  parsePack rawPack (Some room) = Ok (Some p) ->
  nullish (displayName p) = false /\
  (nullish (packField rawPack "display_name") = true ->
   displayName p = JStr (name room)) /\
  (nullish (packField rawPack "display_name") = false ->
   displayName p = packField rawPack "display_name") /\
  (nullish (packField rawPack "avatar_url") = true ->
   avatar p = getMxcAvatarUrl room) /\
  (nullish (packField rawPack "avatar_url") = false ->
   avatar p = packField rawPack "avatar_url").
Proof.
  intros Hp. destruct (parsePack_fields_inv _ _ Hp) as (Hd & Ha & _ & _).
  rewrite Hd, Ha. unfold coalesce.
  destruct (nullish (packField rawPack "display_name")) eqn:En,
           (nullish (packField rawPack "avatar_url")) eqn:Ea;
    repeat split; intros; try reflexivity; try discriminate; assumption.
Qed.

Lemma parsePack_room_fallback_witness :
  exists p1 p2,
    parsePack Sample.pack1Event (Some Sample.packRoom) = Ok (Some p1) /\
    displayName p1 = JStr "Packs" /\ avatar p1 = JStr "mxc://s/avatar" /\
    parsePack Sample.roomEvent (Some Sample.here) = Ok (Some p2) /\
    displayName p2 = JStr "Room pack" /\ avatar p2 = JNull.
Proof.
  assert (H1 : parsePack Sample.pack1Event (Some Sample.packRoom) = Ok (Some _))
    by (vm_compute; reflexivity).
  assert (H2 : parsePack Sample.roomEvent (Some Sample.here) = Ok (Some _))
    by (vm_compute; reflexivity).
  destruct (@parsePack_room_fallback _ _ _ H1) as (_ & F1 & _ & A1 & _).
  destruct (@parsePack_room_fallback _ _ _ H2) as (_ & _ & F2 & A2 & _).
  do 2 eexists. split; [exact H1 |].
  split; [exact (F1 eq_refl) |]. split; [exact (A1 eq_refl) |].
  split; [exact H2 |]. split; [exact (F2 eq_refl) | exact (A2 eq_refl)].
Defined.

Lemma forallb_false_exists {A} (f : A -> bool) (l : list A) :
  forallb f l = false <-> exists x, In x l /\ f x = false.
Proof.
  induction l as [|y l IH]; simpl.
  - split; [discriminate | intros (? & [] & _)].
  - rewrite andb_false_iff, IH. split.
    + intros [H | (x & Hx & Hf)]; [exists y | exists x]; auto.
    + intros (x & [<- | Hx] & Hf); [auto | right; exists x; auto].
Qed.

Lemma completion_cases {A} (c : Completion A) : returns c \/ throws c.
Proof. destruct c as [a | e]; [left; now exists a | right; now exists e]. Qed.

(** X4.  [parsePack] throws in exactly three situations: the content of
    the event is [null] or [undefined], its images value is [null], or an
    entry of its images value is [null] or [undefined]. *)
Theorem parsePack_throws_iff (rawPack : RawEvent) (room : option Room) :
  throws (parsePack rawPack room) <->
  nullish (content rawPack) = true \/
  get (content rawPack) "images" = Ok JNull \/
  exists imgs entries e,
    get (content rawPack) "images" = Ok imgs /\
    Object_entries imgs = Ok entries /\ In e entries /\ nullish (snd e) = true.
Proof.
  assert (Hiff : throws (parsePack rawPack room) <-> tolerated rawPack = false).
  { rewrite <- not_true_iff_false, <- (parsePack_returns_iff rawPack room). split.
    - apply throws_not_returns.
    - intros H. destruct (completion_cases (parsePack rawPack room)); tauto. }
  rewrite Hiff. unfold tolerated.
  destruct (get (content rawPack) "images") as [imgs|e] eqn:Hi.
  - assert (Hc : nullish (content rawPack) = false)
      by (eapply get_Ok_nullish; eauto).
    rewrite Hc. destruct (Object_entries imgs) as [entries|err] eqn:He.
    + assert (Hu : is_undefined imgs = false)
        by (destruct imgs; simpl in *; try discriminate; reflexivity).
      rewrite Hu. simpl. rewrite forallb_false_exists. split.
      * intros (x & Hx & Hf). apply negb_false_iff in Hf.
        right. right. exists imgs, entries, x. auto.
      * intros [H | [H | (? & ? & x & H & H' & Hx & Hf)]]; try discriminate.
        -- injection H as ->. discriminate He.
        -- injection H as <-. rewrite He in H'. injection H' as <-.
           exists x. split; [exact Hx |]. now apply negb_false_iff.
    + destruct imgs; simpl in He; try discriminate; simpl.
      * split; [discriminate |].
        intros [H | [H | (? & ? & x & H & H' & _)]]; try discriminate.
        injection H as <-. discriminate H'.
      * split; auto.
  - split; [intros _ | reflexivity]. left.
    destruct (content rawPack); simpl in *; try discriminate; try reflexivity.
    destruct (lookup "images" props); discriminate.
Qed.

(** ** The sources of packs: order, names and failures *)

Lemma parsed_events (room : Room) (l : list RawEvent) (r : list (option ImagePack)) :
  mapM (fun ev => parsePack ev (Some room)) l = Ok r ->
  map event (dropNull r) = filter declaresImages l.
Proof.
  revert r. induction l as [|ev l IH]; simpl; intros r H.
  - now injection H as <-.
  - inv_bind H. inv_bind H. injection H as <-. unfold declaresImages at 1, read.
    destruct a as [p|]; simpl.
    + destruct (parsePack_Some_inv _ _ E) as (imgs & _ & -> & -> & _ & _ & ->).
      simpl. f_equal. now apply IH.
    + rewrite (parsePack_None_inv _ _ E). simpl. now apply IH.
Qed.

(** X5.  [getPacksInRoom] gives one pack per pack event of the room that
    declares images, in the order of the events; the events without images
    leave no trace. *)
Theorem getPacksInRoom_one_pack_per_event (room : Room) (packs : list ImagePack) :
  getPacksInRoom room = Ok packs ->
  map event packs
  = filter declaresImages (getStateEvents room "im.ponies.room_emotes").
Proof.
  unfold getPacksInRoom. intros H. inv_bind H. injection H as <-.
  exact (parsed_events _ _ E).
Qed.

Lemma getPacksInRoom_one_pack_per_event_witness :
  exists packs,
    getPacksInRoom Scenario.mixedRoom = Ok packs /\
    map event packs = [Sample.pack1Event; Sample.pack2Event].
Proof.
  assert (H : getPacksInRoom Scenario.mixedRoom = Ok _)
    by (vm_compute; reflexivity).
  eexists. split; [exact H |].
  exact (@getPacksInRoom_one_pack_per_event Scenario.mixedRoom _ H).
Defined.

Lemma throws_bind {A B} (c : Completion A) (k : A -> Completion B) :
  (forall a, c = Ok a -> throws (k a)) -> throws (bind c k).
Proof.
  destruct c as [a | e]; simpl; intros H; [now apply H | now exists e].
Qed.

Lemma throws_bind_l {A B} (c : Completion A) (k : A -> Completion B) :
  throws c -> throws (bind c k).
Proof. intros [e ->]. now exists e. Qed.

Lemma mapM_throws {A B} (f : A -> Completion B) (l : list A) (x : A) :
  In x l -> throws (f x) -> throws (mapM f l).
Proof.
  induction l as [|y l IH]; simpl; intros Hin Hx; [destruct Hin |].
  apply throws_bind. intros b Hb. destruct Hin as [-> | Hin].
  - exfalso. apply (throws_not_returns Hx). now exists b.
  - apply throws_bind_l. now apply IH.
Qed.

Lemma flatMapM_throws {A B} (f : A -> Completion (list B)) (l : list A) (x : A) :
  In x l -> throws (f x) -> throws (flatMapM f l).
Proof.
  induction l as [|y l IH]; simpl; intros Hin Hx; [destruct Hin |].
  apply throws_bind. intros b Hb. destruct Hin as [-> | Hin].
  - exfalso. apply (throws_not_returns Hx). now exists b.
  - apply throws_bind_l. now apply IH.
Qed.

Lemma not_tolerated_throws (rawPack : RawEvent) (room : option Room) :
  tolerated rawPack = false -> throws (parsePack rawPack room).
Proof.
  intros H. destruct (completion_cases (parsePack rawPack room)) as [Hr | Ht];
    [| exact Ht].
  apply parsePack_returns_iff in Hr. congruence.
Qed.

Lemma getPacksInRoom_throws (room : Room) (bad : RawEvent) :
  In bad (getStateEvents room "im.ponies.room_emotes") ->
  tolerated bad = false -> throws (getPacksInRoom room).
Proof.
  intros Hin Hbad. unfold getPacksInRoom. apply throws_bind_l.
  apply (mapM_throws (fun p => parsePack p (Some room)) _ bad Hin).
  now apply not_tolerated_throws.
Qed.

Lemma tables_throw (emojis : list StdEmoji) (mx : Client) (room : Room) :
  throws (getRelevantPacks mx room) ->
  throws (getShortcodeToEmoji emojis mx room) /\
  throws (getEmojiForCompletion emojis mx room).
Proof.
  intros H. unfold getShortcodeToEmoji, getEmojiForCompletion, customEmoji.
  split; apply throws_bind_l, throws_bind_l; exact H.
Qed.

(** X6.  One pack event that [parsePack] does not tolerate among the pack
    events of a room makes [getPacksInRoom] throw for the room, and with it
    [getRelevantPacks] and both tables, for every client and emoji table:
    the well-formed packs of the room are lost with it. *)
Theorem malformed_event_poisons_room (room : Room) (bad : RawEvent) :
  In bad (getStateEvents room "im.ponies.room_emotes") ->
  tolerated bad = false ->
  throws (getPacksInRoom room) /\
  forall (emojis : list StdEmoji) (mx : Client),
    throws (getRelevantPacks mx room) /\
    throws (getShortcodeToEmoji emojis mx room) /\
    throws (getEmojiForCompletion emojis mx room).
Proof.
  intros Hin Hbad.
  pose proof (getPacksInRoom_throws room bad Hin Hbad) as Hr.
  split; [exact Hr |]. intros emojis mx.
  assert (Hp : throws (getRelevantPacks mx room)).
  { unfold getRelevantPacks. apply throws_bind. intros user _.
    now apply throws_bind_l. }
  split; [exact Hp | now apply tables_throw].
Qed.

Lemma malformed_event_poisons_room_witness :
  throws (getPacksInRoom Sample.brokenRoom) /\
  forall (emojis : list StdEmoji) (mx : Client),
    throws (getRelevantPacks mx Sample.brokenRoom) /\
    throws (getShortcodeToEmoji emojis mx Sample.brokenRoom) /\
    throws (getEmojiForCompletion emojis mx Sample.brokenRoom).
Proof.
  apply (@malformed_event_poisons_room Sample.brokenRoom Sample.nullEntryEvent).
  - simpl. auto.
  - reflexivity.
Defined.

(** X7.  A malformed pack event in a loaded room that the account data
    references makes [getFromImagePackRooms] throw, and with it
    [getRelevantPacks] and both tables in every room of the client. *)
Theorem malformed_event_poisons_client
    (mx : Client) (ev : RawEvent) (entries : list (string * JsVal))
    (rid : string) (keyObjects : JsVal) (packRoom : Room) (bad : RawEvent) :
  getAccountData mx "im.ponies.emote_rooms" = Some ev ->
  Object_entries (coalesce (read (content ev) "rooms") (JObj [])) = Ok entries ->
  In (rid, keyObjects) entries ->
  getRoom mx rid = Some packRoom ->
  In bad (getStateEvents packRoom "im.ponies.room_emotes") ->
  tolerated bad = false ->
  throws (getFromImagePackRooms mx) /\
  forall (emojis : list StdEmoji) (room : Room),
    throws (getRelevantPacks mx room) /\
    throws (getShortcodeToEmoji emojis mx room) /\
    throws (getEmojiForCompletion emojis mx room).
Proof.
  intros Hacc He Hin Hroom Hbad Htol.
  assert (Hx : throws (getFromImagePackRooms mx)).
  { unfold getFromImagePackRooms. rewrite Hacc. simpl.
    apply throws_bind. intros r Hr. unfold read in He. rewrite Hr in He.
    rewrite He. simpl.
    apply (flatMapM_throws (packsOfEmoteRoom mx) entries (rid, keyObjects) Hin).
    unfold packsOfEmoteRoom. simpl. apply throws_bind. intros keys _.
    rewrite Hroom. apply throws_bind_l.
    exact (getPacksInRoom_throws packRoom bad Hbad Htol). }
  split; [exact Hx |]. intros emojis room.
  assert (Hp : throws (getRelevantPacks mx room)).
  { unfold getRelevantPacks. apply throws_bind. intros user _.
    apply throws_bind. intros inRoom _. now apply throws_bind_l. }
  split; [exact Hp | now apply tables_throw].
Qed.

Lemma malformed_event_poisons_client_witness :
  throws (getFromImagePackRooms Scenario.poisoned) /\
  forall (emojis : list StdEmoji) (room : Room),
    throws (getRelevantPacks Scenario.poisoned room) /\
    throws (getShortcodeToEmoji emojis Scenario.poisoned room) /\
    throws (getEmojiForCompletion emojis Scenario.poisoned room).
Proof.
  eapply (@malformed_event_poisons_client Scenario.poisoned _ _
            "!broken:x" (JObj [("", JObj [])]) Sample.brokenRoom
            Sample.nullEntryEvent).
  - reflexivity.
  - reflexivity.
  - simpl. auto.
  - reflexivity.
  - simpl. auto.
  - reflexivity.
Defined.

Lemma getUserImagePack_Some_inv (mx : Client) (q : ImagePack) :
  getUserImagePack mx = Ok (Some q) ->
  exists ev p,
    getAccountData mx "im.ponies.user_emotes" = Some ev /\
    parsePack ev None = Ok (Some p) /\ q = defaultDisplayName p.
Proof.
  unfold getUserImagePack.
  destruct (getAccountData mx "im.ponies.user_emotes") as [ev|]; [| discriminate].
  intros H. inv_bind H. destruct a as [p|]; [| discriminate].
  injection H as <-. exists ev, p. auto.
Qed.

(** X8.  The personal pack always carries a display name: the one its
    event declares, and "Your Emoji" when it declares none; its images and
    usage are those parsed from the account data. *)
Theorem getUserImagePack_named (mx : Client) (q : ImagePack) :
  getUserImagePack mx = Ok (Some q) ->
  exists ev,
    getAccountData mx "im.ponies.user_emotes" = Some ev /\
    event q = ev /\
    nullish (displayName q) = false /\
    displayName q = coalesce (packField ev "display_name") (JStr "Your Emoji").
Proof.
  intros H. destruct (getUserImagePack_Some_inv _ H) as (ev & p & Hacc & Hp & ->).
  exists ev. split; [exact Hacc |].
  destruct (parsePack_Some_inv _ _ Hp) as (_ & _ & _ & _ & _ & _ & He).
  destruct (parsePack_fields_inv _ _ Hp) as (Hd & _).
  simpl. split; [exact He |]. split.
  - apply nullish_coalesce. reflexivity.
  - rewrite Hd. unfold coalesce.
    destruct (nullish (packField ev "display_name")) eqn:En; simpl; [reflexivity |].
    now rewrite En.
Qed.

Lemma getUserImagePack_named_witness :
  exists q,
    getUserImagePack Scenario.named = Ok (Some q) /\
    displayName q = JStr "Mine".
Proof.
  assert (H : getUserImagePack Scenario.named = Ok (Some _))
    by (vm_compute; reflexivity).
  destruct (@getUserImagePack_named Scenario.named _ H) as (ev & Hacc & _ & _ & Hd).
  eexists. split; [exact H |].
  injection Hacc as <-. exact Hd.
Defined.

(** X9.  A user who has configured no image pack rooms gets the empty
    list: without [im.ponies.emote_rooms] account data, or when its content
    has no [rooms] member, [getFromImagePackRooms] returns [[]]. *)
Theorem getFromImagePackRooms_unconfigured (mx : Client) :
  (getAccountData mx "im.ponies.emote_rooms" = None \/
   exists ev, getAccountData mx "im.ponies.emote_rooms" = Some ev /\
              nullish (content ev) = false /\
              nullish (read (content ev) "rooms") = true) ->
  getFromImagePackRooms mx = Ok [].
Proof.
  unfold getFromImagePackRooms. intros [-> | (ev & -> & Hc & Hr)].
  - reflexivity.
  - simpl. unfold read in Hr.
    destruct (get_returns _ "rooms" Hc) as [r Hg]. rewrite Hg in *. simpl.
    unfold coalesce. rewrite Hr. reflexivity.
Qed.

Lemma getFromImagePackRooms_unconfigured_witness :
  getFromImagePackRooms Sample.fresh = Ok [] /\
  getFromImagePackRooms Scenario.named = Ok [].
Proof.
  split.
  - apply getFromImagePackRooms_unconfigured. left. reflexivity.
  - apply getFromImagePackRooms_unconfigured. right.
    exists (mkRawEvent (JObj []) None None). repeat split.
Defined.

(** ** [getRelevantPacks]: what the merge keeps *)

Lemma dedupFirst_ids (l : list ImagePack) (seen : list (option string)) (p : ImagePack) :
  In p l ->
  In (packId p) seen \/ In (packId p) (map packId (dedupFirst seen l)).
Proof.
  revert seen. induction l as [|q l IH]; intros seen Hin; [destruct Hin |].
  simpl. destruct (existsb (fun s => opt_string_eqb s (packId q)) seen) eqn:E.
  - destruct Hin as [<- | Hin]; [| now apply IH].
    left. now apply existsb_opt_string_In.
  - simpl. destruct Hin as [<- | Hin]; [auto |].
    destruct (IH (seen ++ [packId q]) Hin) as [H | H]; [| auto].
    apply in_app_iff in H. destruct H as [H | [<- | []]]; auto.
Qed.

Lemma dedupFirst_incl (l : list ImagePack) (seen : list (option string)) (p : ImagePack) :
  In p (dedupFirst seen l) -> In p l.
Proof.
  intros H. apply dedupFirst_In in H. destruct H as (l1 & l2 & -> & _).
  apply in_app_iff. simpl. auto.
Qed.

Lemma dedupFirst_distinct (l : list ImagePack) (seen : list (option string)) :
  NoDup (map packId l) ->
  (forall p, In p l -> ~ In (packId p) seen) ->
  dedupFirst seen l = l.
Proof.
  revert seen. induction l as [|q l IH]; intros seen Hnd Hfresh; [reflexivity |].
  simpl in *. apply NoDup_cons_iff in Hnd. destruct Hnd as [Hq Hnd].
  destruct (existsb (fun s => opt_string_eqb s (packId q)) seen) eqn:E.
  - apply existsb_opt_string_In in E. exfalso. apply (Hfresh q); auto.
  - f_equal. apply IH; [exact Hnd |].
    intros p Hp Hin. apply in_app_iff in Hin. destruct Hin as [Hin | [Heq | []]].
    + apply (Hfresh p); auto.
    + apply Hq. rewrite Heq. now apply in_map.
Qed.

Lemma getRelevantPacks_Ok_inv (mx : Client) (room : Room) (result : list ImagePack) :
  getRelevantPacks mx room = Ok result ->
  exists user inRoom external,
    getUserImagePack mx = Ok user /\ getPacksInRoom room = Ok inRoom /\
    getFromImagePackRooms mx = Ok external /\
    result = dedupByEventId (optList user ++ inRoom ++ external).
Proof.
  unfold getRelevantPacks. intros H. do 3 inv_bind H. injection H as <-.
  exists a, a0, a1. rewrite dedupPacks_spec. auto.
Qed.

(** X10.  The merge invents nothing and loses no source event: every pack
    of [getRelevantPacks] is a pack of one of the three sources, and the
    event id of every pack of the sources is the event id of a pack of the
    result. *)
Theorem getRelevantPacks_keeps_every_event
    (mx : Client) (room : Room)
    (user : option ImagePack) (inRoom external result : list ImagePack) :
  getUserImagePack mx = Ok user ->
  getPacksInRoom room = Ok inRoom ->
  getFromImagePackRooms mx = Ok external ->
  getRelevantPacks mx room = Ok result ->
  (forall p, In p result -> In p (optList user ++ inRoom ++ external)) /\
  (forall p, In p (optList user ++ inRoom ++ external) ->
             In (packId p) (map packId result)).
Proof.
  intros Hu Hr He H.
  destruct (getRelevantPacks_Ok_inv _ _ H) as (u & r & e & Hu' & Hr' & He' & ->).
  rewrite Hu in Hu'. rewrite Hr in Hr'. rewrite He in He'.
  injection Hu' as <-. injection Hr' as <-. injection He' as <-.
  unfold dedupByEventId. split.
  - intros p. apply dedupFirst_incl.
  - intros p Hp. destruct (dedupFirst_ids _ [] p Hp) as [[] | Hin]. exact Hin.
Qed.

Lemma getRelevantPacks_keeps_every_event_witness :
  exists user inRoom external result,
    getUserImagePack Sample.mx = Ok user /\
    getPacksInRoom Sample.packRoom = Ok inRoom /\
    getFromImagePackRooms Sample.mx = Ok external /\
    getRelevantPacks Sample.mx Sample.packRoom = Ok result /\
    List.length (optList user ++ inRoom ++ external) = 4 /\
    List.length result = 3 /\
    (forall p, In p result -> In p (optList user ++ inRoom ++ external)) /\
    (forall p, In p (optList user ++ inRoom ++ external) ->
               In (packId p) (map packId result)).
Proof.
  assert (Hu : getUserImagePack Sample.mx = Ok _) by (vm_compute; reflexivity).
  assert (Hr : getPacksInRoom Sample.packRoom = Ok _) by (vm_compute; reflexivity).
  assert (He : getFromImagePackRooms Sample.mx = Ok _) by (vm_compute; reflexivity).
  assert (H : getRelevantPacks Sample.mx Sample.packRoom = Ok _)
    by (vm_compute; reflexivity).
  do 4 eexists. split; [exact Hu |]. split; [exact Hr |]. split; [exact He |].
  split; [exact H |]. split; [reflexivity |]. split; [reflexivity |].
  exact (@getRelevantPacks_keeps_every_event _ _ _ _ _ _ Hu Hr He H).
Defined.

(** X11.  When the packs of the three sources carry pairwise distinct event
    ids, [getRelevantPacks] is their plain concatenation in priority order:
    nothing is dropped and nothing is reordered. *)
Theorem getRelevantPacks_distinct_sources
    (mx : Client) (room : Room)
    (user : option ImagePack) (inRoom external : list ImagePack) :
  getUserImagePack mx = Ok user ->
  getPacksInRoom room = Ok inRoom ->
  getFromImagePackRooms mx = Ok external ->
  NoDup (map packId (optList user ++ inRoom ++ external)) ->
  getRelevantPacks mx room = Ok (optList user ++ inRoom ++ external).
Proof.
  intros Hu Hr He Hnd. unfold getRelevantPacks. rewrite Hu, Hr, He. simpl.
  rewrite dedupPacks_spec. unfold dedupByEventId.
  rewrite dedupFirst_distinct; [reflexivity | exact Hnd | intros ? _ []].
Qed.

Lemma getRelevantPacks_distinct_sources_witness :
  exists user inRoom external,
    getUserImagePack Sample.mx = Ok user /\
    getPacksInRoom Sample.here = Ok inRoom /\
    getFromImagePackRooms Sample.mx = Ok external /\
    getRelevantPacks Sample.mx Sample.here = Ok (optList user ++ inRoom ++ external).
Proof.
  assert (Hu : getUserImagePack Sample.mx = Ok _) by (vm_compute; reflexivity).
  assert (Hr : getPacksInRoom Sample.here = Ok _) by (vm_compute; reflexivity).
  assert (He : getFromImagePackRooms Sample.mx = Ok _) by (vm_compute; reflexivity).
  do 3 eexists. split; [exact Hu |]. split; [exact Hr |]. split; [exact He |].
  apply (@getRelevantPacks_distinct_sources _ _ _ _ _ Hu Hr He).
  simpl. repeat constructor; simpl; intuition discriminate.
Defined.

(** X12.  The personal pack, when there is one, is the first of the
    relevant packs, and no pack behind it carries its event id. *)
Theorem getRelevantPacks_personal_first
    (mx : Client) (room : Room) (P : ImagePack) (result : list ImagePack) :
  getUserImagePack mx = Ok (Some P) ->
  getRelevantPacks mx room = Ok result ->
  exists rest,
    result = P :: rest /\ forall q, In q rest -> packId q <> packId P.
Proof.
  intros Hu H. unfold getRelevantPacks in H. rewrite Hu in H. simpl in H.
  do 2 inv_bind H. injection H as <-.
  change (optList (Some P) ++ a ++ a0) with (P :: a ++ a0).
  rewrite dedupPacks_head. eexists. split; [reflexivity |].
  intros q Hq Heq.
  apply (proj2 (dedupFirst_NoDup (a ++ a0) [packId P]) q Hq).
  rewrite Heq. simpl. auto.
Qed.

Lemma getRelevantPacks_personal_first_witness :
  exists P result rest,
    getUserImagePack Sample.mx = Ok (Some P) /\
    getRelevantPacks Sample.mx Sample.here = Ok result /\
    result = P :: rest /\ List.length rest = 2 /\
    forall q, In q rest -> packId q <> packId P.
Proof.
  assert (Hu : getUserImagePack Sample.mx = Ok (Some _)) by (vm_compute; reflexivity).
  assert (H : getRelevantPacks Sample.mx Sample.here = Ok (_ :: _))
    by (vm_compute; reflexivity).
  destruct (@getRelevantPacks_personal_first _ _ _ _ Hu H) as (rest & Heq & Hrest).
  injection Heq as <-.
  do 3 eexists. split; [exact Hu |]. split; [exact H |].
  split; [reflexivity |]. split; [reflexivity | exact Hrest].
Defined.

Lemma getPacksInRoom_In_inv (room : Room) (packs : list ImagePack) (p : ImagePack) :
  getPacksInRoom room = Ok packs -> In p packs ->
  exists ev,
    In ev (getStateEvents room "im.ponies.room_emotes") /\
    parsePack ev (Some room) = Ok (Some p).
Proof.
  unfold getPacksInRoom. intros H Hp. inv_bind H. injection H as <-.
  apply dropNull_In in Hp. exact (mapM_In_inv _ _ _ E Hp).
Qed.

Lemma getFromImagePackRooms_In_inv (mx : Client) (external : list ImagePack) (p : ImagePack) :
  getFromImagePackRooms mx = Ok external -> In p external ->
  exists rid packRoom packs,
    getRoom mx rid = Some packRoom /\ getPacksInRoom packRoom = Ok packs /\
    In p packs.
Proof.
  unfold getFromImagePackRooms. intros H Hp. do 2 inv_bind H.
  apply (flatMapM_In _ _ p H) in Hp. destruct Hp as ([rid ko] & ys & _ & Hys & Hp).
  destruct (packsOfEmoteRoom_Ok_inv _ _ _ Hys)
    as (keys & _ & [(r & packs & Hr & Hg & ->) | [_ ->]]); [| destruct Hp].
  apply filter_In in Hp. exists rid, r, packs. tauto.
Qed.

(** X13.  Every relevant pack is parsed from an event the client holds:
    the personal account data, a pack event of the room, or a pack event of
    a room the client has loaded; and every relevant pack has a display
    name. *)
Theorem getRelevantPacks_provenance
    (mx : Client) (room : Room) (result : list ImagePack) (p : ImagePack) :
  getRelevantPacks mx room = Ok result -> In p result ->
  nullish (displayName p) = false /\
  (getAccountData mx "im.ponies.user_emotes" = Some (event p) \/
   In (event p) (getStateEvents room "im.ponies.room_emotes") \/
   exists rid packRoom,
     getRoom mx rid = Some packRoom /\
     In (event p) (getStateEvents packRoom "im.ponies.room_emotes")).
Proof.
  intros H Hp.
  destruct (getRelevantPacks_Ok_inv _ _ H) as (u & r & e & Hu & Hr & He & ->).
  apply dedupFirst_incl in Hp. rewrite !in_app_iff in Hp.
  assert (Hroom : forall (rm : Room) packs, getPacksInRoom rm = Ok packs ->
            In p packs ->
            nullish (displayName p) = false /\
            In (event p) (getStateEvents rm "im.ponies.room_emotes")).
  { intros rm packs Hg Hin.
    destruct (getPacksInRoom_In_inv _ _ Hg Hin) as (ev & Hev & Hparse).
    destruct (parsePack_fields_inv _ _ Hparse) as (Hd & _).
    destruct (parsePack_Some_inv _ _ Hparse) as (_ & _ & _ & _ & _ & _ & Hevent).
    rewrite Hd, Hevent. split; [apply nullish_coalesce; reflexivity | exact Hev]. }
  destruct Hp as [Hp | [Hp | Hp]].
  - destruct u as [q|]; [| destruct Hp]. destruct Hp as [<- | []].
    destruct (getUserImagePack_Some_inv _ Hu) as (ev & p0 & Hacc & Hparse & ->).
    destruct (parsePack_Some_inv _ _ Hparse) as (_ & _ & _ & _ & _ & _ & Hevent).
    simpl. rewrite Hevent. split; [apply nullish_coalesce; reflexivity | auto].
  - destruct (Hroom _ _ Hr Hp). auto.
  - destruct (getFromImagePackRooms_In_inv _ _ He Hp) as (rid & pr & packs & Hg & Hpk & Hin).
    destruct (Hroom _ _ Hpk Hin). split; [assumption |].
    right. right. exists rid, pr. auto.
Qed.

Lemma getRelevantPacks_provenance_witness :
  exists p rest,
    getRelevantPacks Sample.mx Sample.here = Ok (p :: rest) /\
    nullish (displayName p) = false /\
    (getAccountData Sample.mx "im.ponies.user_emotes" = Some (event p) \/
     In (event p) (getStateEvents Sample.here "im.ponies.room_emotes") \/
     exists rid packRoom,
       getRoom Sample.mx rid = Some packRoom /\
       In (event p) (getStateEvents packRoom "im.ponies.room_emotes")).
Proof.
  assert (H : getRelevantPacks Sample.mx Sample.here = Ok (_ :: _))
    by (vm_compute; reflexivity).
  do 2 eexists. split; [exact H |].
  exact (@getRelevantPacks_provenance _ _ _ _ H (or_introl eq_refl)).
Defined.

(** ** The tables: standard aliases and custom emoji *)

Lemma Map_set_bindings {V} (m : JsMap V) (k : string) (v : V) (kv : string * V) :
  In kv (Map_set k v m) -> kv = (k, v) \/ In kv m.
Proof.
  induction m as [|[k0 v0] m IH]; simpl.
  - intros [<- | []]. now left.
  - destruct (String.eqb k0 k); simpl.
    + intros [<- | H]; auto.
    + intros [<- | H]; auto. destruct (IH H); auto.
Qed.

Lemma Map_get_In {V} (m : JsMap V) (k : string) (v : V) :
  Map_get m k = Some v -> In (k, v) m.
Proof.
  induction m as [|[k0 v0] m IH]; simpl; [discriminate |].
  destruct (String.eqb_spec k0 k) as [-> | Hk].
  - intros H. injection H as <-. now left.
  - intros H. right. now apply IH.
Qed.

Lemma Map_In_get {V} (m : JsMap V) (k : string) (v : V) :
  NoDup (map fst m) -> In (k, v) m -> Map_get m k = Some v.
Proof.
  induction m as [|[k0 v0] m IH]; simpl; intros Hnd Hin; [destruct Hin |].
  apply NoDup_cons_iff in Hnd. destruct Hnd as [Hk0 Hnd].
  destruct Hin as [Heq | Hin].
  - injection Heq as -> ->. now rewrite String.eqb_refl.
  - destruct (String.eqb_spec k0 k) as [-> | Hk]; [| auto].
    exfalso. apply Hk0. apply in_map_iff. exists (k, v). auto.
Qed.

Lemma setStandard_get (m : JsMap Emoji) (e : StdEmoji) (k : string) :
  Map_get (setStandard m e) k
  = if declares k e then Some (Standard e) else Map_get m k.
Proof.
  unfold setStandard, declares, aliases. destruct (shortcodes e) as [s | l].
  - rewrite Map_get_set. simpl. now rewrite orb_false_r.
  - change (fold_left (fun m sc => Map_set sc (Standard e) m) l m)
      with (setAll (fun sc : string => sc) (fun _ : string => Standard e) l m).
    rewrite setAll_get.
    destruct (find (fun a => String.eqb a k) (rev l)) as [a|] eqn:Ef.
    + apply find_some in Ef. destruct Ef as [Ha Ek]. rewrite <- in_rev in Ha.
      assert (Hx : existsb (fun a => String.eqb a k) l = true)
        by (apply existsb_exists; eauto).
      now rewrite Hx.
    + destruct (existsb (fun a => String.eqb a k) l) eqn:Ex; [| reflexivity].
      apply existsb_exists in Ex. destruct Ex as (a & Ha & Ek).
      rewrite in_rev in Ha. rewrite (find_none _ _ Ef a Ha) in Ek. discriminate.
Qed.

(** The table seeded with the standard emoji maps a key to the last emoji
    that declares it. *)
Lemma seed_get (emojis : list StdEmoji) (k : string) :
  Map_get (fold_left setStandard emojis []) k
  = option_map Standard (lastDeclaring emojis k).
Proof.
  unfold lastDeclaring. induction emojis as [|e emojis IH] using rev_ind;
    [reflexivity |].
  rewrite fold_left_app, rev_app_distr. simpl. rewrite setStandard_get.
  destruct (declares k e); [reflexivity | exact IH].
Qed.

Lemma lastDeclaring_Some (emojis : list StdEmoji) (k : string) (e : StdEmoji) :
  lastDeclaring emojis k = Some e -> In e emojis /\ In k (aliases e).
Proof.
  unfold lastDeclaring. intros H. apply find_some in H. destruct H as [Hin Hd].
  rewrite <- in_rev in Hin. split; [exact Hin |].
  unfold declares in Hd. apply existsb_exists in Hd. destruct Hd as (a & Ha & Ek).
  apply String.eqb_eq in Ek. now subst.
Qed.

Lemma lastDeclaring_None (emojis : list StdEmoji) (k : string) :
  lastDeclaring emojis k = None ->
  forall e, In e emojis -> ~ In k (aliases e).
Proof.
  unfold lastDeclaring. intros H e He Hk. rewrite in_rev in He.
  pose proof (find_none _ _ H e He) as Hd. unfold declares in Hd.
  assert (existsb (fun a => String.eqb a k) (aliases e) = true).
  { apply existsb_exists. exists k. split; [exact Hk | apply String.eqb_refl]. }
  congruence.
Qed.

Lemma table_get (emojis : list StdEmoji) (custom : list Image) (k : string) :
  Map_get (setAll shortcode Custom custom (fold_left setStandard emojis [])) k
  = match find (fun i => String.eqb (shortcode i) k) (rev custom) with
    | Some i => Some (Custom i)
    | None => option_map Standard (lastDeclaring emojis k)
    end.
Proof. rewrite setAll_get, seed_get. reflexivity. Qed.

Lemma getShortcodeToEmoji_table
    (emojis : list StdEmoji) (mx : Client) (room : Room)
    (custom : list Image) (m : JsMap Emoji) :
  customEmoji mx room = Ok custom ->
  getShortcodeToEmoji emojis mx room = Ok m ->
  m = setAll shortcode Custom custom (fold_left setStandard emojis []).
Proof.
  unfold getShortcodeToEmoji. intros -> H. simpl in H. now injection H as <-.
Qed.

Lemma find_shortcode_None (custom : list Image) (k : string) :
  ~ In k (map shortcode custom) ->
  find (fun i => String.eqb (shortcode i) k) (rev custom) = None.
Proof.
  intros H. apply find_absent. intros i Hi. rewrite <- in_rev in Hi.
  apply String.eqb_neq. intros <-. apply H. now apply in_map.
Qed.

(** X14.  A shortcode that no custom emoji uses resolves as in the standard
    table: [getShortcodeToEmoji] maps it to the last standard emoji that
    declares it among its aliases, and to nothing when none does.  A custom
    emoji thus shadows only its own shortcode, not the other aliases of the
    standard emoji it shadows. *)
Theorem getShortcodeToEmoji_standard_alias
    (emojis : list StdEmoji) (mx : Client) (room : Room)
    (custom : list Image) (m : JsMap Emoji) (k : string) :
  customEmoji mx room = Ok custom ->
  getShortcodeToEmoji emojis mx room = Ok m ->
  ~ In k (map shortcode custom) ->
  Map_get m k = option_map Standard (lastDeclaring emojis k).
Proof.
  intros Hc Hm Hk. rewrite (getShortcodeToEmoji_table _ _ _ Hc Hm), table_get.
  now rewrite find_shortcode_None.
Qed.

Lemma getShortcodeToEmoji_standard_alias_witness :
  exists custom m,
    customEmoji Sample.mx Sample.here = Ok custom /\
    getShortcodeToEmoji Sample.emojis Sample.mx Sample.here = Ok m /\
    In "x" (map shortcode custom) /\
    Map_get m "cross_mark"
    = Some (Standard (mkStdEmoji "274C" "U+274C" "x" (Codes ["x"; "cross_mark"]))).
Proof.
  assert (Hc : customEmoji Sample.mx Sample.here = Ok _)
    by (vm_compute; reflexivity).
  assert (Hm : getShortcodeToEmoji Sample.emojis Sample.mx Sample.here = Ok _)
    by (vm_compute; reflexivity).
  do 2 eexists. split; [exact Hc |]. split; [exact Hm |].
  split; [simpl; auto |].
  apply (@getShortcodeToEmoji_standard_alias _ _ _ _ _ "cross_mark" Hc Hm).
  simpl. intuition discriminate.
Defined.

(** X15.  The keys of the table of [getShortcodeToEmoji] are the aliases
    of the standard emoji and the shortcodes of the custom emoji, and
    nothing else. *)
Theorem getShortcodeToEmoji_keys
    (emojis : list StdEmoji) (mx : Client) (room : Room)
    (custom : list Image) (m : JsMap Emoji) (k : string) :
  customEmoji mx room = Ok custom ->
  getShortcodeToEmoji emojis mx room = Ok m ->
  (Map_has m k = true <->
   (exists e, In e emojis /\ In k (aliases e)) \/ In k (map shortcode custom)).
Proof.
  intros Hc Hm. rewrite (getShortcodeToEmoji_table _ _ _ Hc Hm).
  unfold Map_has. rewrite table_get.
  destruct (find (fun i => String.eqb (shortcode i) k) (rev custom)) as [i|] eqn:Ef.
  - apply find_some in Ef. destruct Ef as [Hi Ek]. rewrite <- in_rev in Hi.
    apply String.eqb_eq in Ek. split; [| reflexivity].
    intros _. right. rewrite <- Ek. now apply in_map.
  - assert (Hnot : ~ In k (map shortcode custom)).
    { intros H. apply in_map_iff in H. destruct H as (i & <- & Hi).
      rewrite in_rev in Hi. pose proof (find_none _ _ Ef i Hi) as Hf.
      simpl in Hf. rewrite String.eqb_refl in Hf. discriminate. }
    destruct (lastDeclaring emojis k) as [e|] eqn:El; simpl.
    + split; [| reflexivity]. intros _. left. exists e.
      now apply lastDeclaring_Some.
    + split; [discriminate |].
      intros [(e & He & Hk) | H]; [| contradiction].
      exfalso. exact (lastDeclaring_None _ _ El e He Hk).
Qed.

Lemma getShortcodeToEmoji_keys_witness :
  exists custom m,
    customEmoji Sample.mx Sample.here = Ok custom /\
    getShortcodeToEmoji Sample.emojis Sample.mx Sample.here = Ok m /\
    Map_has m "grin" = true /\ Map_has m "y" = true /\ Map_has m "wave" = false.
Proof.
  assert (Hc : customEmoji Sample.mx Sample.here = Ok _)
    by (vm_compute; reflexivity).
  assert (Hm : getShortcodeToEmoji Sample.emojis Sample.mx Sample.here = Ok _)
    by (vm_compute; reflexivity).
  do 2 eexists. split; [exact Hc |]. split; [exact Hm |].
  split; [| split].
  - apply (proj2 (@getShortcodeToEmoji_keys _ _ _ _ _ "grin" Hc Hm)).
    left. eexists. split; [left; reflexivity | simpl; auto].
  - apply (proj2 (@getShortcodeToEmoji_keys _ _ _ _ _ "y" Hc Hm)).
    right. simpl. auto 10.
  - reflexivity.
Defined.

(** X16.  Every entry of the table of [getShortcodeToEmoji] stands under a
    shortcode of its value: a standard emoji of the table under one of its
    aliases, a custom emoji under its shortcode. *)
Theorem getShortcodeToEmoji_entries
    (emojis : list StdEmoji) (mx : Client) (room : Room)
    (custom : list Image) (m : JsMap Emoji) (k : string) (v : Emoji) :
  customEmoji mx room = Ok custom ->
  getShortcodeToEmoji emojis mx room = Ok m ->
  Map_get m k = Some v ->
  (exists e, v = Standard e /\ In e emojis /\ In k (aliases e)) \/
  (exists i, v = Custom i /\ In i custom /\ shortcode i = k).
Proof.
  intros Hc Hm. rewrite (getShortcodeToEmoji_table _ _ _ Hc Hm), table_get.
  destruct (find (fun i => String.eqb (shortcode i) k) (rev custom)) as [i|] eqn:Ef.
  - intros H. injection H as <-. right. exists i.
    apply find_some in Ef. destruct Ef as [Hi Ek]. rewrite <- in_rev in Hi.
    apply String.eqb_eq in Ek. auto.
  - destruct (lastDeclaring emojis k) as [e|] eqn:El; simpl; [| discriminate].
    intros H. injection H as <-. left. exists e.
    destruct (lastDeclaring_Some _ _ El). auto.
Qed.

Lemma getShortcodeToEmoji_entries_witness :
  exists custom m v,
    customEmoji Sample.mx Sample.here = Ok custom /\
    getShortcodeToEmoji Sample.emojis Sample.mx Sample.here = Ok m /\
    Map_get m "smile" = Some v /\
    ((exists e, v = Standard e /\ In e Sample.emojis /\ In "smile" (aliases e)) \/
     (exists i, v = Custom i /\ In i custom /\ shortcode i = "smile")).
Proof.
  assert (Hc : customEmoji Sample.mx Sample.here = Ok _)
    by (vm_compute; reflexivity).
  assert (Hm : getShortcodeToEmoji Sample.emojis Sample.mx Sample.here = Ok _)
    by (vm_compute; reflexivity).
  match type of Hm with
  | _ = Ok ?m =>
      assert (Hg : Map_get m "smile" = Some _) by (vm_compute; reflexivity)
  end.
  do 3 eexists. split; [exact Hc |]. split; [exact Hm |].
  split; [exact Hg |].
  exact (@getShortcodeToEmoji_entries _ _ _ _ _ _ _ Hc Hm Hg).
Defined.

Lemma custom_table_values (custom : list Image) (i : Image) :
  In i (Map_values (setAll shortcode (fun i => i) custom [])) <->
  find (fun j => String.eqb (shortcode j) (shortcode i)) (rev custom) = Some i.
Proof.
  set (allEmoji := setAll shortcode (fun i : Image => i) custom []).
  assert (Hget : forall k, Map_get allEmoji k
                           = find (fun j => String.eqb (shortcode j) k) (rev custom)).
  { intros k. unfold allEmoji. rewrite setAll_get. simpl.
    destruct (find _ (rev custom)); reflexivity. }
  rewrite <- Hget. split.
  - intros Hin. unfold Map_values in Hin. apply in_map_iff in Hin.
    destruct Hin as ([k v] & Hv & Hin). simpl in Hv. subst v.
    assert (Hk : k = shortcode i).
    { destruct (setAll_bindings _ _ _ _ _ Hin) as [[] | (e & _ & Heq)].
      now injection Heq as -> ->. }
    subst k. apply Map_In_get; [| exact Hin].
    apply setAll_NoDup. constructor.
  - intros H. apply Map_get_In in H. unfold Map_values.
    apply in_map_iff. exists (shortcode i, i). auto.
Qed.

(** X17.  The two tables resolve custom emoji alike: a custom emoji is in
    the completion list exactly when [getShortcodeToEmoji] maps its
    shortcode to it. *)
Theorem tables_agree_on_custom
    (emojis : list StdEmoji) (mx : Client) (room : Room)
    (m : JsMap Emoji) (l : list Emoji) (i : Image) :
  getShortcodeToEmoji emojis mx room = Ok m ->
  getEmojiForCompletion emojis mx room = Ok l ->
  (In (Custom i) l <-> Map_get m (shortcode i) = Some (Custom i)).
Proof.
  intros Hm Hl.
  destruct (getEmojiForCompletion_Ok_inv _ _ _ Hl) as (custom & Hc & ->).
  rewrite (getShortcodeToEmoji_table _ _ _ Hc Hm), table_get.
  assert (Hin : In (Custom i)
                  (map Standard
                     (filter (fun e =>
                                negb (Map_has (setAll shortcode (fun i => i) custom [])
                                              (std_shortcode e))) emojis)
                   ++ map Custom (Map_values (setAll shortcode (fun i => i) custom [])))
                <-> In i (Map_values (setAll shortcode (fun i => i) custom []))).
  { rewrite in_app_iff, !in_map_iff. split.
    - intros [(e & He & _) | (j & Hj & Hin)]; [discriminate |].
      now injection Hj as ->.
    - intros H. right. exists i. auto. }
  rewrite Hin, custom_table_values.
  destruct (find (fun j => String.eqb (shortcode j) (shortcode i)) (rev custom))
    as [j|]; [split; congruence |].
  destruct (lastDeclaring emojis (shortcode i)); simpl; split; discriminate.
Qed.

Lemma tables_agree_on_custom_witness :
  exists m l,
    getShortcodeToEmoji Sample.emojis Sample.mx Sample.here = Ok m /\
    getEmojiForCompletion Sample.emojis Sample.mx Sample.here = Ok l /\
    In (Custom (mkImage "x" (JStr "mxc://s/personal-x") (JStr "x") JUndefined
                        default_usage)) l.
Proof.
  assert (Hm : getShortcodeToEmoji Sample.emojis Sample.mx Sample.here = Ok _)
    by (vm_compute; reflexivity).
  assert (Hl : getEmojiForCompletion Sample.emojis Sample.mx Sample.here = Ok _)
    by (vm_compute; reflexivity).
  do 2 eexists. split; [exact Hm |]. split; [exact Hl |].
  apply (proj2 (@tables_agree_on_custom _ _ _ _ _
                  (mkImage "x" (JStr "mxc://s/personal-x") (JStr "x") JUndefined
                           default_usage) Hm Hl)).
  vm_compute. reflexivity.
Defined.

Lemma shadowed_In (custom : list Image) (e : StdEmoji) :
  shadowed custom e = true <-> In (std_shortcode e) (map shortcode custom).
Proof.
  unfold shadowed. rewrite existsb_exists, in_map_iff. split.
  - intros (i & Hi & Ei). apply String.eqb_eq in Ei. eauto.
  - intros (i & Ei & Hi). exists i. split; [exact Hi |]. now apply String.eqb_eq.
Qed.

(** X18.  The completion list keeps the standard emoji in the order of the
    table and drops exactly those whose own shortcode is the shortcode of a
    custom emoji; the other aliases of a standard emoji play no part. *)
Theorem getEmojiForCompletion_standard_part
    (emojis : list StdEmoji) (mx : Client) (room : Room)
    (custom : list Image) (l : list Emoji) :
  customEmoji mx room = Ok custom ->
  getEmojiForCompletion emojis mx room = Ok l ->
  (exists customs,
      l = map Standard (filter (fun e => negb (shadowed custom e)) emojis)
          ++ map Custom customs) /\
  (forall e, In (Standard e) l <->
             In e emojis /\ ~ In (std_shortcode e) (map shortcode custom)).
Proof.
  intros Hc Hl.
  destruct (getEmojiForCompletion_Ok_inv _ _ _ Hl) as (custom' & Hc' & ->).
  rewrite Hc in Hc'. injection Hc' as <-.
  assert (Hf : filter (fun e => negb (Map_has (setAll shortcode (fun i => i) custom [])
                                            (std_shortcode e))) emojis
               = filter (fun e => negb (shadowed custom e)) emojis).
  { apply filter_ext. intros e. now rewrite has_shadowed. }
  rewrite Hf. split.
  - eexists. reflexivity.
  - intros e. rewrite in_app_iff. split.
    + intros [H | H]; apply in_map_iff in H.
      * destruct H as (e' & He' & Hin). injection He' as ->.
        apply filter_In in Hin. destruct Hin as [Hin Hs].
        split; [exact Hin |]. rewrite <- shadowed_In.
        apply negb_true_iff in Hs. congruence.
      * destruct H as (j & Hj & _). discriminate.
    + intros [Hin Hs]. left. apply in_map. apply filter_In.
      split; [exact Hin |]. apply negb_true_iff.
      rewrite <- shadowed_In in Hs. now destruct (shadowed custom e).
Qed.

Lemma getEmojiForCompletion_standard_part_witness :
  exists custom l customs,
    customEmoji Sample.mx Sample.here = Ok custom /\
    getEmojiForCompletion Sample.emojis Sample.mx Sample.here = Ok l /\
    l = map Standard
          [mkStdEmoji "1F600" "U+1F600" "grinning" (Codes ["grinning"; "grin"])]
        ++ map Custom customs.
Proof.
  assert (Hc : customEmoji Sample.mx Sample.here = Ok _)
    by (vm_compute; reflexivity).
  assert (Hl : getEmojiForCompletion Sample.emojis Sample.mx Sample.here = Ok _)
    by (vm_compute; reflexivity).
  destruct (proj1 (@getEmojiForCompletion_standard_part _ _ _ _ _ Hc Hl))
    as (customs & Heq).
  do 3 eexists. split; [exact Hc |]. split; [exact Hl |]. exact Heq.
Defined.

Lemma filter_all {A} (f : A -> bool) (l : list A) :
  (forall x, In x l -> f x = true) -> filter f l = l.
Proof.
  induction l as [|x l IH]; simpl; intros H; [reflexivity |].
  rewrite (H x (or_introl eq_refl)). f_equal. apply IH. auto.
Qed.

(** X19.  With no personal pack, no configured pack rooms and no pack
    event in the room there is no relevant pack, and both tables are the
    standard ones: every key resolves to the last standard emoji declaring
    it, and the completion list is the standard table. *)
Theorem tables_without_packs (emojis : list StdEmoji) (mx : Client) (room : Room) :
  getAccountData mx "im.ponies.user_emotes" = None ->
  getAccountData mx "im.ponies.emote_rooms" = None ->
  getStateEvents room "im.ponies.room_emotes" = [] ->
  getRelevantPacks mx room = Ok [] /\
  (exists m, getShortcodeToEmoji emojis mx room = Ok m /\
             forall k, Map_get m k = option_map Standard (lastDeclaring emojis k)) /\
  getEmojiForCompletion emojis mx room = Ok (map Standard emojis).
Proof.
  intros Hu He Hr.
  assert (Hp : getRelevantPacks mx room = Ok []).
  { unfold getRelevantPacks, getUserImagePack, getPacksInRoom, getFromImagePackRooms.
    rewrite Hu, He, Hr. reflexivity. }
  assert (Hc : customEmoji mx room = Ok [])
    by (unfold customEmoji; rewrite Hp; reflexivity).
  split; [exact Hp |]. split.
  - eexists. split.
    + unfold getShortcodeToEmoji. rewrite Hc. reflexivity.
    + intros k. simpl. apply seed_get.
  - unfold getEmojiForCompletion. rewrite Hc. simpl.
    rewrite app_nil_r. f_equal. f_equal. apply filter_all. reflexivity.
Qed.

Lemma tables_without_packs_witness :
  getRelevantPacks Sample.fresh Scenario.mixedRoom <> Ok [] /\
  getRelevantPacks Sample.fresh (mkRoom "!quiet:x" "Quiet" JNull (fun _ => []))
  = Ok [] /\
  getEmojiForCompletion Sample.emojis Sample.fresh
                        (mkRoom "!quiet:x" "Quiet" JNull (fun _ => []))
  = Ok (map Standard Sample.emojis).
Proof.
  split; [vm_compute; discriminate |].
  destruct (@tables_without_packs Sample.emojis Sample.fresh
              (mkRoom "!quiet:x" "Quiet" JNull (fun _ => []))
              eq_refl eq_refl eq_refl) as (Hp & _ & Hl).
  split; [exact Hp | exact Hl].
Defined.

Lemma filterM_all {A} (p : A -> Completion bool) (l : list A) :
  (forall x, In x l -> p x = Ok true) -> filterM p l = Ok l.
Proof.
  induction l as [|x l IH]; simpl; intros H; [reflexivity |].
  rewrite (H x (or_introl eq_refl)). simpl. rewrite IH; auto.
Qed.

(** X20.  A pack that declares no usage, neither for itself nor for any of
    its images, offers every image both as an emoji and as a sticker. *)
Theorem undeclared_usage_is_both
    (rawPack : RawEvent) (room : option Room) (p : ImagePack) :
  parsePack rawPack room = Ok (Some p) ->
  nullish (packField rawPack "usage") = true ->
  (forall imgs entries e,
      get (content rawPack) "images" = Ok imgs ->
      Object_entries imgs = Ok entries -> In e entries ->
      nullish (read (snd e) "usage") = true) ->
  getEmojis p = Ok (images p) /\ getStickers p = Ok (images p).
Proof.
  intros Hp Hpu Heu.
  destruct (parsePack_Some_inv _ _ Hp) as (imgs & entries & Hi & _ & He & Hf & _).
  destruct (parsePack_fields_inv _ _ Hp) as (_ & _ & Hu & _).
  assert (Hall : forall i, In i (images p) -> usage_ i = default_usage).
  { intros i Hin. apply (flatMapM_In _ _ i Hf) in Hin.
    destruct Hin as ([sc data] & ys & Hx & Hy & Hin).
    destruct (parseImage_Ok_inv _ _ _ Hy) as (url & b & inf & us & _ & _ & _ & Hus & ->).
    destruct (truthy url); [| destruct Hin]. destruct Hin as [<- | []]. simpl.
    specialize (Heu _ _ _ Hi He Hx). simpl in Heu. unfold read in Heu.
    rewrite Hus in Heu. unfold coalesce at 1. rewrite Heu.
    rewrite Hu. unfold coalesce. now rewrite Hpu. }
  unfold getEmojis, getStickers.
  split; apply filterM_all; intros i Hin; rewrite (Hall i Hin); reflexivity.
Qed.

Lemma undeclared_usage_is_both_witness :
  exists p,
    parsePack Sample.pack1Event (Some Sample.packRoom) = Ok (Some p) /\
    List.length (images p) = 2 /\
    getEmojis p = Ok (images p) /\ getStickers p = Ok (images p).
Proof.
  assert (Hp : parsePack Sample.pack1Event (Some Sample.packRoom) = Ok (Some _))
    by (vm_compute; reflexivity).
  eexists. split; [exact Hp |]. split; [reflexivity |].
  apply (@undeclared_usage_is_both _ _ _ Hp); [reflexivity |].
  intros imgs entries e Hi He Hin.
  injection Hi as <-. injection He as <-.
  destruct Hin as [<- | [<- | []]]; reflexivity.
Defined.

(** * Properties of the room profile form *)

(** Case analysis on the branches of the handler and on the outcomes of
    its calls, then on the values of the mount flag that remain. *)
Ltac submit_branches trim p f w :=
  unfold RoomProfile.handleOnSubmit, RoomProfile.saveTopic, RoomProfile.finish,
    RoomProfile.catch, RoomProfile.calls, RoomProfile.retopics;
  destruct (RoomProfile.renames trim p f);
  destruct (RoomProfile.canChangeTopic p
            && negb (opt_string_eqb (Some (RoomProfile.newTopic f))
                                    (RoomProfile.roomTopic p)))%bool;
  destruct (RoomProfile.setRoomName w (RoomProfile.rid p) (RoomProfile.newName f))
    eqn:Ename;
  destruct (RoomProfile.setRoomTopic w (RoomProfile.rid p) (RoomProfile.newTopic f))
    eqn:Etopic.

Ltac mount_cases w :=
  destruct (RoomProfile.mounted w 0) eqn:M0;
  destruct (RoomProfile.mounted w 1) eqn:M1;
  destruct (RoomProfile.mounted w 2) eqn:M2;
  simpl.

(** X22.  The submit handler sends at most a rename followed by a topic
    change: the rename when the user may rename, the submitted name differs
    and the current name is not blank; the topic change when the user may
    change the topic and the submitted topic differs, unless the rename was
    rejected, which cancels it. *)
Theorem handleOnSubmit_calls
    (trim : string -> string)
    (p : RoomProfile.Props) (f : RoomProfile.Form) (w : RoomProfile.World) :
  RoomProfile.calls (RoomProfile.handleOnSubmit trim p f w)
  = if RoomProfile.renames trim p f
    then RoomProfile.SetRoomName (RoomProfile.rid p) (RoomProfile.newName f)
         :: match RoomProfile.setRoomName w (RoomProfile.rid p)
                                          (RoomProfile.newName f) with
            | RoomProfile.Resolved =>
                if RoomProfile.retopics p f
                then [RoomProfile.SetRoomTopic (RoomProfile.rid p)
                                               (RoomProfile.newTopic f)]
                else []
            | RoomProfile.Rejected _ => []
            end
    else if RoomProfile.retopics p f
         then [RoomProfile.SetRoomTopic (RoomProfile.rid p) (RoomProfile.newTopic f)]
         else [].
Proof. submit_branches trim p f w; simpl; mount_cases w; reflexivity. Qed.

(** X23.  A component that is unmounted when the handler comes to its end,
    that is after as many awaits as calls were sent, is told nothing of the
    outcome: neither the success nor the error status is set. *)
Theorem handleOnSubmit_unmounted_silent
    (trim : string -> string)
    (p : RoomProfile.Props) (f : RoomProfile.Form) (w : RoomProfile.World) :
  RoomProfile.mounted w
    (List.length (RoomProfile.calls (RoomProfile.handleOnSubmit trim p f w))) = false ->
  Forall (fun a => RoomProfile.isVerdict a = false)
         (RoomProfile.handleOnSubmit trim p f w).
Proof.
  submit_branches trim p f w; simpl; mount_cases w; simpl; intros H;
    try congruence; repeat constructor.
Qed.

Lemma handleOnSubmit_unmounted_silent_witness :
  RoomProfile.calls
    (RoomProfile.handleOnSubmit (fun s => s) RoomProfile.sampleProps
                                RoomProfile.sampleForm RoomProfile.leaving)
  = [RoomProfile.SetRoomName "!r:x" "New name"; RoomProfile.SetRoomTopic "!r:x" ""] /\
  Forall (fun a => RoomProfile.isVerdict a = false)
         (RoomProfile.handleOnSubmit (fun s => s) RoomProfile.sampleProps
                                     RoomProfile.sampleForm RoomProfile.leaving).
Proof.
  split; [reflexivity |].
  apply handleOnSubmit_unmounted_silent. reflexivity.
Defined.

(** X24.  A component that is still mounted when the handler comes to its
    end is told the outcome last: success when every call that was sent
    resolved, which includes the case that none was sent, and otherwise an
    error whose text is the message of the rejection, or "Unable to save."
    when the rejection has no message or an empty one; the error text is
    never empty. *)
Theorem handleOnSubmit_verdict
    (trim : string -> string)
    (p : RoomProfile.Props) (f : RoomProfile.Form) (w : RoomProfile.World) :
  RoomProfile.mounted w
    (List.length (RoomProfile.calls (RoomProfile.handleOnSubmit trim p f w))) = true ->
  exists s,
    last (RoomProfile.handleOnSubmit trim p f w) RoomProfile.PreventDefault
    = RoomProfile.SetStatus s /\
    ((RoomProfile.type s = RoomProfile.SUCCESS /\
      RoomProfile.msg s = Some "Saved successfully" /\
      Forall (fun a => RoomProfile.outcomeOf w a = RoomProfile.Resolved)
             (RoomProfile.calls (RoomProfile.handleOnSubmit trim p f w))) \/
     (RoomProfile.type s = RoomProfile.ERROR /\
      exists a message,
        last (RoomProfile.calls (RoomProfile.handleOnSubmit trim p f w))
             RoomProfile.PreventDefault = a /\
        RoomProfile.outcomeOf w a = RoomProfile.Rejected message /\
        RoomProfile.msg s = Some (RoomProfile.errorText message) /\
        RoomProfile.errorText message <> "")).
Proof.
  assert (Htext : forall message, RoomProfile.errorText message <> "").
  { intros [m|]; simpl; [| discriminate].
    destruct (String.eqb_spec m ""); [discriminate | assumption]. }
  submit_branches trim p f w; simpl; mount_cases w; simpl; intros H;
    try congruence;
    eexists; (split; [reflexivity |]);
    first [ left; repeat split; repeat constructor; assumption
          | right; split; [reflexivity |];
            do 2 eexists; split; [reflexivity |];
            split; [simpl; eassumption |]; split; [reflexivity | apply Htext] ].
Qed.

Lemma handleOnSubmit_verdict_witness :
  last (RoomProfile.handleOnSubmit (fun s => s) RoomProfile.sampleProps
                                   RoomProfile.sampleForm RoomProfile.failing)
       RoomProfile.PreventDefault
  = RoomProfile.SetStatus
      (RoomProfile.mkStatus (Some "Unable to save.") RoomProfile.ERROR) /\
  RoomProfile.calls
    (RoomProfile.handleOnSubmit (fun s => s) RoomProfile.sampleProps
                                RoomProfile.sampleForm RoomProfile.failing)
  = [RoomProfile.SetRoomName "!r:x" "New name"].
Proof.
  destruct (@handleOnSubmit_verdict (fun s => s) RoomProfile.sampleProps
              RoomProfile.sampleForm RoomProfile.failing eq_refl)
    as (s & Hlast & _).
  split; [| reflexivity].
  rewrite Hlast. vm_compute in Hlast. injection Hlast as <-. reflexivity.
Defined.
